(** * The Firehose console reader of firehose-sui

    A shallow embedding of [codec/console_reader.go]: the reader that turns
    the [FIRE ...] lines printed by the instrumented Sui node into blocks.

    Go strings are byte strings, so they are [string]s (lists of 8-bit
    [ascii]); [uint64] values are [Z]; byte slices are [list byte].  The
    reader mutates a [*ConsoleReader], logs, reads the clock and receives
    from a channel: all of that is threaded through a state monad whose
    computations may also end in a Go run-time panic.  Go's [error] results
    stay ordinary return values, as in the source. *)

From Stdlib Require Import ZArith List String Ascii Bool Lia.
From Stdlib.Strings Require Import Byte.
Import ListNotations.
Local Open Scope string_scope.
Local Open Scope Z_scope.

(** ** Go built-ins and standard library functions the reader calls *)

Module Go.

(** [strings.HasPrefix(s, prefix)]. *)
Definition HasPrefix (s prefix : string) : bool := String.prefix prefix s.

(** [s[n:]] on a string: the suffix from byte [n]; Go panics (here [None])
    when [n > len(s)]. *)
Fixpoint slice_from (n : nat) (s : string) : option string :=
  match n with
  | O => Some s
  | S n' =>
      match s with
      | EmptyString => None
      | String _ s' => slice_from n' s'
      end
  end.

Definition space : ascii := Ascii.ascii_of_nat 32.

(** [strings.Split(s, " ")]: cut at every single space; [k] spaces give
    [k + 1] tokens, some of them possibly empty. *)
Fixpoint Split (s : string) : list string :=
  match s with
  | EmptyString => [EmptyString]
  | String c s' =>
      if Ascii.eqb c space then EmptyString :: Split s'
      else
        match Split s' with
        | t :: ts => String c t :: ts
        | [] => [String c EmptyString]
        end
  end.

(** Whether a string holds a space, that is, whether [Split] cuts it. *)
Fixpoint has_space (s : string) : bool :=
  match s with
  | EmptyString => false
  | String c s' => Ascii.eqb c space || has_space s'
  end.

(** [strconv.NumError]'s two causes. *)
Inductive NumError : Type := ErrSyntax | ErrRange.

Definition maxUint64 : Z := 2 ^ 64 - 1.

(** [strconv.ParseUint]'s cutoff for base 10: the smallest [n] with
    [n * 10 > maxUint64]. *)
Definition cutoff : Z := maxUint64 / 10 + 1.

Definition digit_of (c : ascii) : option Z :=
  let n := Z.of_N (N_of_ascii c) in
  if (48 <=? n) && (n <=? 57) then Some (n - 48) else None.

(** The digit loop of [strconv.ParseUint(s, 10, 64)], [n] being the value
    read so far. *)
Fixpoint parse_digits (s : string) (n : Z) : Z + NumError :=
  match s with
  | EmptyString => inl n
  | String c s' =>
      match digit_of c with
      | None => inr ErrSyntax
      | Some d =>
          if cutoff <=? n then inr ErrRange
          else
            let n1 := n * 10 + d in
            if maxUint64 <? n1 then inr ErrRange else parse_digits s' n1
      end
  end.

(** [strconv.ParseUint(s, 10, 64)]: decimal digits only, no sign, no
    underscore, not empty, at most [maxUint64]. *)
Definition ParseUint (s : string) : Z + NumError :=
  match s with
  | EmptyString => inr ErrSyntax
  | _ => parse_digits s 0
  end.

(** [base64.CorruptInputError] (its offset is not modelled). *)
Inductive CorruptInputError : Type := CorruptInput.

(** [base64.StdEncoding]'s decode map: the value of a character of the
    standard alphabet. *)
Definition decodeMap (c : ascii) : option Z :=
  let n := Z.of_N (N_of_ascii c) in
  if (65 <=? n) && (n <=? 90) then Some (n - 65)
  else if (97 <=? n) && (n <=? 122) then Some (n - 71)
  else if (48 <=? n) && (n <=? 57) then Some (n + 4)
  else if n =? 43 then Some 62
  else if n =? 47 then Some 63
  else None.

Definition padChar : ascii := Ascii.ascii_of_nat 61.

Definition is_newline (c : ascii) : bool :=
  Ascii.eqb c (Ascii.ascii_of_nat 10) || Ascii.eqb c (Ascii.ascii_of_nat 13).


(** Go's [byte(v)] conversion: the low eight bits. *)
Definition byte_of_Z (v : Z) : byte :=
  byte_of_ascii (ascii_of_N (Z.to_N (Z.land v 255))).

(** The 24-bit value of a quantum, as [decodeQuantum] assembles it. *)
Definition quantum (d0 d1 d2 d3 : Z) : Z :=
  Z.lor (Z.lor (Z.lor (Z.shiftl d0 18) (Z.shiftl d1 12)) (Z.shiftl d2 6)) d3.

(** The quantum loop of [base64.StdEncoding.Decode] over the input with
    its line breaks already dropped.  A full quantum gives three bytes; the
    last one may be padded ([xx==] gives one byte, [xxx=] two); anything
    else is corrupt. *)
Fixpoint decode_quanta (src : list ascii) : list byte + CorruptInputError :=
  match src with
  | [] => inl []
  | c0 :: c1 :: c2 :: c3 :: rest =>
      match decodeMap c0, decodeMap c1 with
      | Some d0, Some d1 =>
          match decodeMap c2, decodeMap c3 with
          | Some d2, Some d3 =>
              let val := quantum d0 d1 d2 d3 in
              match decode_quanta rest with
              | inl out =>
                  inl (byte_of_Z (Z.shiftr val 16)
                       :: byte_of_Z (Z.shiftr val 8)
                       :: byte_of_Z val :: out)
              | inr e => inr e
              end
          | Some d2, None =>
              if Ascii.eqb c3 padChar then
                match rest with
                | [] =>
                    let val := quantum d0 d1 d2 0 in
                    inl [byte_of_Z (Z.shiftr val 16); byte_of_Z (Z.shiftr val 8)]
                | _ => inr CorruptInput
                end
              else inr CorruptInput
          | None, _ =>
              if Ascii.eqb c2 padChar && Ascii.eqb c3 padChar then
                match rest with
                | [] => inl [byte_of_Z (Z.shiftr (quantum d0 d1 0 0) 16)]
                | _ => inr CorruptInput
                end
              else inr CorruptInput
          end
      | _, _ => inr CorruptInput
      end
  | _ => inr CorruptInput
  end.

(** [base64.StdEncoding.DecodeString(s)]: standard alphabet, padded, not
    strict; carriage returns and line feeds are ignored wherever they
    stand. *)
Definition DecodeString (s : string) : list byte + CorruptInputError :=
  decode_quanta (filter (fun c => negb (is_newline c)) (list_ascii_of_string s)).

(** Go's [uint(b)] of a byte. *)
Definition Z_of_byte (b : byte) : Z := Z.of_N (Byte.to_N b).

(** [base64.StdEncoding]'s alphabet: the character of the low six bits of
    [v]. *)
Definition encodeStd (v : Z) : ascii :=
  let d := Z.land v 63 in
  ascii_of_N (Z.to_N (if d <? 26 then d + 65
                      else if d <? 52 then d + 71
                      else if d <? 62 then d - 4
                      else if d =? 62 then 43 else 47)).

(** The loop of [base64.StdEncoding.Encode]: four characters for three
    bytes, the last group padded. *)
Fixpoint encode_quanta (src : list byte) : list ascii :=
  match src with
  | [] => []
  | [b0] =>
      let val := Z.shiftl (Z_of_byte b0) 16 in
      [encodeStd (Z.shiftr val 18); encodeStd (Z.shiftr val 12); padChar; padChar]
  | [b0; b1] =>
      let val := Z.lor (Z.shiftl (Z_of_byte b0) 16) (Z.shiftl (Z_of_byte b1) 8) in
      [encodeStd (Z.shiftr val 18); encodeStd (Z.shiftr val 12);
       encodeStd (Z.shiftr val 6); padChar]
  | b0 :: b1 :: b2 :: rest =>
      let val := Z.lor (Z.lor (Z.shiftl (Z_of_byte b0) 16) (Z.shiftl (Z_of_byte b1) 8))
                   (Z_of_byte b2) in
      encodeStd (Z.shiftr val 18) :: encodeStd (Z.shiftr val 12)
      :: encodeStd (Z.shiftr val 6) :: encodeStd val :: encode_quanta rest
  end.

(** [base64.StdEncoding.EncodeToString(src)], the text the node prints for
    a payload; the reader itself only decodes. *)
Definition EncodeToString (src : list byte) : string :=
  string_of_list_ascii (encode_quanta src).

(** Three bytes as the 24-bit value [Encode] cuts in four. *)
Definition pack3 (b0 b1 b2 : byte) : Z :=
  Z.lor (Z.lor (Z.shiftl (Z_of_byte b0) 16) (Z.shiftl (Z_of_byte b1) 8)) (Z_of_byte b2).

(** Whether every character is a decimal digit. *)
Fixpoint all_digits (s : string) : bool :=
  match s with
  | EmptyString => true
  | String c s' =>
      match digit_of c with
      | Some _ => all_digits s'
      | None => false
      end
  end.

(** The number a string of decimal digits writes, after the digits that
    made [n]. *)
Fixpoint decimal (s : string) (n : Z) : Z :=
  match s with
  | EmptyString => n
  | String c s' =>
      decimal s' (n * 10 + match digit_of c with Some d => d | None => 0 end)
  end.


End Go.

(** ** Errors

    Every [fmt.Errorf] of the reader is one constructor that keeps the
    format's arguments; the comment gives the format string.  A wrapped
    cause ([%w]) is the constructor's [cause] or [source]. *)

Inductive error : Type :=
| EOF                                          (* io.EOF *)
| Foreign (msg : string)                       (* an error made by a collaborator *)
| NumErr (num : string) (e : Go.NumError)      (* *strconv.NumError of ParseUint *)
| CorruptInputErr (e : Go.CorruptInputError)   (* base64.CorruptInputError *)
| FieldsRequired (count found : nat)           (* "%d fields required but found %d" *)
| FieldsRequiredOneOf (counts : list nat) (found : nat)
                                    (* "%s fields required but found %d", counts joined by " or " *)
| NilBlock             (* "console reader read a nil *pbbstream.Block, this is invalid" *)
| InvalidLogLine (line : string)    (* "invalid log line %q, expecting at least two tokens" *)
| LineError (source : error) (line : string)                 (* "%w (on line %q)" *)
| InvalidLogLineLength (cause : error)                 (* "invalid log line length: %w" *)
| InvalidMajorVersion (param : string) (cause : error)
                                              (* "invalid firehose major version %q: %w" *)
| InvalidMinorVersion (param : string) (cause : error)
                                              (* "invalid firehose minor version %q: %w" *)
| UnsupportedMajorVersion (got : Z)
          (* "only able to consume firehose format with major version 0, got %d" *)
| InvalidBlockStartLine (cause : error)                (* "invalid BLOCK_START line: %w" *)
| InvalidBlockStartHeight (cause : error)   (* "invalid BLOCK_START \"height\" param: %w" *)
| NoActiveBlock (valueType : string)    (* "no active block in progress when reading %s" *)
| InvalidBase64 (valueType : string) (height : Z) (cause : error)
                                   (* "read %s in block %d: invalid base64 value: %w" *)
| InvalidProto (valueType : string) (height : Z) (cause : error)
                                           (* "read %s in block %d: invalid proto: %w" *)
| InvalidBlockEndLine (cause : error)                    (* "invalid BLOCK_END line: %w" *)
| InvalidBlockEndHeight (cause : error)       (* "invalid BLOCK_END \"height\" param: %w" *)
| HeightMismatch (active height : Z)
          (* "active block's height %d does not match BLOCK_END received height %d" *)
| EmptyBlock (height : Z)     (* "active block height %d does not contain any transaction" *)
| InitAlreadyRead.           (* "received INIT line while one has already been read" *)

(** [time.Time] as a number of nanoseconds; [time.Time{}] is [0]. *)
Definition Time : Type := Z.

(** ** The collaborators

    The generated protobuf package, the block accessors defined on its
    [CheckpointData], the encoder handed to [NewConsoleReader] and the
    process the reader runs in are outside [console_reader.go]; the reader
    is verified for every one of them. *)

(** A protobuf message type: [proto.Unmarshal(b, &T{})]. *)
Class ProtoMessage (T : Type) : Type := {
  Unmarshal : list byte -> T + error
}.

(** The message types of [pbsui] the reader decodes, and the one field it
    reads itself, [Checkpoint.SequenceNumber]. *)
Class Schemas : Type := {
  pbsui_Checkpoint : Type;
  SequenceNumber : pbsui_Checkpoint -> Z;
  pbsui_Transaction : Type;
  pbsui_TransactionObjectChange : Type;
  pbsui_IndexedEvent : Type;
  pbsui_StoredDisplay : Type;
  Checkpoint_message :: ProtoMessage pbsui_Checkpoint;
  Transaction_message :: ProtoMessage pbsui_Transaction;
  TransactionObjectChange_message :: ProtoMessage pbsui_TransactionObjectChange;
  IndexedEvent_message :: ProtoMessage pbsui_IndexedEvent;
  StoredDisplay_message :: ProtoMessage pbsui_StoredDisplay
}.

(** [pbbstream.BlockRef]. *)
Record BlockRef : Type := { Num : Z; Id : string }.

(** [zap] levels the reader logs at. *)
Inductive Level : Type := DebugLevel | InfoLevel | WarnLevel.

(** The log calls of the reader, each with its fields. *)
Inductive LogEntry : Type :=
| SkippingBeforeInit (prefix : string)
    (* Warn "received Firehose log line but we did not see 'FIRE INIT' yet, skipping" *)
| SkippingUnknown (line : string)         (* Debug "skipping unknown firehose log line" *)
| ChannelClosed                                 (* Info "lines channel has been closed" *)
| Initialized (client_name client_version fork : string)
              (firehose_major firehose_minor : Z) (chain_id : string)
                                       (* Info "initialized console reader correclty" *)
| BlockStartWhileActive (previous_active_block_height new_active_block_height : Z)
    (* Info "received BLOCK_START while one is already active, resetting active block
       and starting over" *)
| NodeBlock (id : string) (height : Z) (timestamp : Time).
                                                  (* Debug "console reader node block" *)

Definition level_of (m : LogEntry) : Level :=
  match m with
  | SkippingBeforeInit _ => WarnLevel
  | SkippingUnknown _ | NodeBlock _ _ _ => DebugLevel
  | ChannelClosed | Initialized _ _ _ _ _ _ | BlockStartWhileActive _ _ => InfoLevel
  end.

(** Go run-time panics the reader can raise. *)
Inductive panic_cause : Type := NilDereference | SliceOutOfRange | IndexOutOfRange.

(** [consoleReaderStats], each counter by what the reader fed it:
    [blockRate] the number of [Inc()], [transactionRate] the sum given to
    [IncBy], [blockAverageParseTime] the start times given to
    [AddElapsedTime], latest first. *)
Record consoleReaderStats : Type := {
  lastBlock : BlockRef;
  blockRate : Z;
  blockAverageParseTime : list Time;
  transactionRate : Z
}.

(** [newConsoleReaderStats()]. *)
Definition newConsoleReaderStats : consoleReaderStats :=
  {| lastBlock := {| Num := 0; Id := "" |};
     blockRate := 0;
     blockAverageParseTime := [];
     transactionRate := 0 |}.

Section Reader.

Context {schemas : Schemas}.

(** [pbsui.CheckpointData], the accumulator: the fields the reader
    touches.  The pointer fields are [option]s, [nil] being [None]. *)
Record CheckpointData : Type := {
  Checkpoint : option pbsui_Checkpoint;
  Transactions : list pbsui_Transaction;
  ObjectChange : option pbsui_TransactionObjectChange;
  Events : list pbsui_IndexedEvent;
  DisplayUpdates : list pbsui_StoredDisplay
}.

(** [&pbsui.CheckpointData{}]. *)
Definition emptyCheckpointData : CheckpointData :=
  {| Checkpoint := None; Transactions := []; ObjectChange := None;
     Events := []; DisplayUpdates := [] |}.

Definition set_Checkpoint (c : pbsui_Checkpoint) (b : CheckpointData) :=
  {| Checkpoint := Some c; Transactions := Transactions b;
     ObjectChange := ObjectChange b; Events := Events b;
     DisplayUpdates := DisplayUpdates b |}.

Definition set_Transactions (ts : list pbsui_Transaction) (b : CheckpointData) :=
  {| Checkpoint := Checkpoint b; Transactions := ts;
     ObjectChange := ObjectChange b; Events := Events b;
     DisplayUpdates := DisplayUpdates b |}.

Definition set_ObjectChange (o : pbsui_TransactionObjectChange) (b : CheckpointData) :=
  {| Checkpoint := Checkpoint b; Transactions := Transactions b;
     ObjectChange := Some o; Events := Events b;
     DisplayUpdates := DisplayUpdates b |}.

Definition set_Events (es : list pbsui_IndexedEvent) (b : CheckpointData) :=
  {| Checkpoint := Checkpoint b; Transactions := Transactions b;
     ObjectChange := ObjectChange b; Events := es;
     DisplayUpdates := DisplayUpdates b |}.

Definition set_DisplayUpdates (ds : list pbsui_StoredDisplay) (b : CheckpointData) :=
  {| Checkpoint := Checkpoint b; Transactions := Transactions b;
     ObjectChange := ObjectChange b; Events := Events b;
     DisplayUpdates := ds |}.

(** [firecore.BlockEnveloppe]. *)
Record BlockEnveloppe : Type := { Block : CheckpointData; LIBNum : Z }.

(** The methods of [*pbsui.CheckpointData] the reader calls.  They are
    defined beside the generated code, in the [pb] package, and are taken
    here as they are declared: total functions of the block. *)
Class BlockModel : Type := {
  GetFirehoseBlockID : CheckpointData -> string;
  GetFirehoseBlockNumber : CheckpointData -> Z;
  GetFirehoseBlockTime : CheckpointData -> Time;
  GetFirehoseBlockLIBNum : CheckpointData -> Z;
  AsRef : CheckpointData -> BlockRef
}.

(** [firecore.BlockEncoder]: [Encode] returns a [*pbbstream.Block], which
    may be [nil] ([None]), and an [error]. *)
Class BlockEncoder : Type := {
  pbbstream_Block : Type;
  Encode : BlockEnveloppe -> option pbbstream_Block * option error
}.

(** The process around the reader: what the [k]-th call of [time.Now()]
    returns, and whether the logger's core is enabled at debug level. *)
Class Host : Type := {
  time_Now : nat -> Time;
  DebugEnabled : bool
}.

Context {model : BlockModel} {encoder : BlockEncoder} {host : Host}.

(** [ConsoleReader]'s mutable fields ([lines] is in the [World]; [close],
    [done], [logger] and [encoder] never change). *)
Record ConsoleReader : Type := {
  activeBlockStartTime : Time;
  activeBlock : option CheckpointData;
  chainID : string;
  initRead : bool;
  stats : consoleReaderStats
}.

(** What the reader does to its surroundings: a log call, or a call of
    the encoder, recorded with the reader's fields at the time of the
    call. *)
Inductive Event : Type :=
| Logged (entry : LogEntry)
| Encoded (enveloppe : BlockEnveloppe) (at_call : ConsoleReader).

(** Everything a call of the reader can read or change: the reader's
    fields, the lines the channel still delivers before it is closed, the
    events so far (oldest first) and the number of clock readings taken. *)
Record World : Type := {
  reader : ConsoleReader;
  lines : list string;
  trace : list Event;
  ticks : nat
}.

(** The reader [NewConsoleReader] returns.  (It also starts the periodic
    logging of the statistics, which only reads them.) *)
Definition NewConsoleReader : ConsoleReader :=
  {| activeBlockStartTime := 0; activeBlock := None; chainID := "";
     initRead := false; stats := newConsoleReaderStats |}.

Definition with_reader (r : ConsoleReader) (w : World) : World :=
  {| reader := r; lines := lines w; trace := trace w; ticks := ticks w |}.

Definition with_lines (ls : list string) (w : World) : World :=
  {| reader := reader w; lines := ls; trace := trace w; ticks := ticks w |}.

Definition with_event (e : Event) (w : World) : World :=
  {| reader := reader w; lines := lines w; trace := trace w ++ [e]; ticks := ticks w |}.

Definition with_tick (w : World) : World :=
  {| reader := reader w; lines := lines w; trace := trace w; ticks := S (ticks w) |}.

(** ** The monad: state, and panics *)

Inductive Res (A : Type) : Type :=
| Done (a : A) (w : World)
| Panic (cause : panic_cause).
Arguments Done {A} a w.
Arguments Panic {A} cause.

Definition M (A : Type) : Type := World -> Res A.

Definition ret {A} (a : A) : M A := fun w => Done a w.

Definition bind {A B} (m : M A) (k : A -> M B) : M B :=
  fun w => match m w with
           | Done a w' => k a w'
           | Panic c => Panic c
           end.

Definition panic {A} (c : panic_cause) : M A := fun _ => Panic c.

Definition get : M ConsoleReader := fun w => Done (reader w) w.

Definition put (r : ConsoleReader) : M unit := fun w => Done tt (with_reader r w).

Definition emit (e : Event) : M unit := fun w => Done tt (with_event e w).

Definition log (entry : LogEntry) : M unit := emit (Logged entry).

(** [time.Now()]. *)
Definition Now : M Time := fun w => Done (time_Now (ticks w)) (with_tick w).

(** One receive from [r.lines]: the channel is left with [rest]. *)
Definition received (rest : list string) : M unit :=
  fun w => Done tt (with_lines rest w).

(** [params[i]]. *)
Definition index (params : list string) (i : nat) : M string :=
  match nth_error params i with
  | Some s => ret s
  | None => panic IndexOutOfRange
  end.

End Reader.

Arguments Done {schemas A} a w.
Arguments Panic {schemas A} cause.

(** What a computation returned, and the world it left, if it did not
    panic. *)
Definition returned `{Schemas} {A} (r : Res A) : option A :=
  match r with
  | Done a _ => Some a
  | Panic _ => None
  end.

Definition world_after `{Schemas} {A} (r : Res A) : option World :=
  match r with
  | Done _ w => Some w
  | Panic _ => None
  end.

Declare Scope go_scope.
Delimit Scope go_scope with go.
Notation "x <- m ;; k" := (bind m (fun x => k))
  (at level 61, m at next level, right associativity) : go_scope.
Notation "' pat <- m ;; k" := (bind m (fun x => match x with pat => k end))
  (at level 61, pat pattern, m at next level, right associativity) : go_scope.
Notation "m ;; k" := (bind m (fun _ => k))
  (at level 61, right associativity) : go_scope.

(** ** The reader's functions, in the order of [console_reader.go] *)

Section Functions.

Context {schemas : Schemas} {model : BlockModel} {encoder : BlockEncoder} {host : Host}.

Local Open Scope go_scope.

Definition LogPrefix : string := "FIRE".
Definition LogInit : string := "INIT".
Definition LogCheckpoint : string := "CHECKPOINT".
Definition LogBlockStart : string := "BLOCK_START".
Definition LogTrx : string := "TRX".
Definition LogObjChange : string := "OBJ_CHANGE".
Definition LogEvent : string := "EVT".
Definition LogDisplayUpdate : string := "DSP_UPDATE".
Definition LogBlockEnd : string := "BLOCK_END".

Definition validateChunk (params : list string) (count : nat) : option error :=
  if (List.length params =? count)%nat then None
  else Some (FieldsRequired count (List.length params)).

Definition validateVariableChunk (params : list string) (counts : list nat)
  : option error :=
  if existsb (fun validCount => (List.length params =? validCount)%nat) counts
  then None
  else Some (FieldsRequiredOneOf counts (List.length params)).

Definition lineError (line : string) (source : error) : error :=
  LineError source line.

Definition set_handshake (id : string) (r : ConsoleReader) : ConsoleReader :=
  {| activeBlockStartTime := activeBlockStartTime r; activeBlock := activeBlock r;
     chainID := id; initRead := true; stats := stats r |}.

(** [FIRE INIT <client_name> <client_version> <fork> <firehose_major>
    <firehose_minor> <chain_id>].  Both versions are parsed from
    [params[3]], as the source does; only the message of the second parse
    names [params[4]]. *)
Definition readInit (params : list string) : M (option error) :=
  match validateVariableChunk params [6; 7]%nat with
  | Some err => ret (Some (InvalidLogLineLength err))
  | None =>
      clientName <- index params 0 ;;
      clientVersion <- index params 1 ;;
      fork <- index params 2 ;;
      major <- index params 3 ;;
      match Go.ParseUint major with
      | inr err => ret (Some (InvalidMajorVersion major (NumErr major err)))
      | inl firehoseMajor =>
          minor <- index params 3 ;;
          match Go.ParseUint minor with
          | inr err =>
              shown <- index params 4 ;;
              ret (Some (InvalidMinorVersion shown (NumErr minor err)))
          | inl firehoseMinor =>
              if negb (firehoseMajor =? 0) then
                ret (Some (UnsupportedMajorVersion firehoseMajor))
              else
                chainIDString <-
                  (if (List.length params =? 6)%nat then index params 5
                   else index params 6) ;;
                log (Initialized clientName clientVersion fork
                       firehoseMajor firehoseMinor chainIDString) ;;
                r <- get ;;
                put (set_handshake chainIDString r) ;;
                ret None
          end
      end
  end.

Definition set_active (t : Time) (b : option CheckpointData) (r : ConsoleReader)
  : ConsoleReader :=
  {| activeBlockStartTime := t; activeBlock := b;
     chainID := chainID r; initRead := initRead r; stats := stats r |}.

(** [FIRE BLOCK_START <height>].  The height is parsed and, when a block is
    already active, logged beside [r.activeBlock.Checkpoint.SequenceNumber],
    a field read through the [Checkpoint] pointer; the new accumulator is
    [&pbsui.CheckpointData{}]. *)
Definition readBlockStart (params : list string) : M (option error) :=
  match validateChunk params 1 with
  | Some err => ret (Some (InvalidBlockStartLine err))
  | None =>
      p0 <- index params 0 ;;
      match Go.ParseUint p0 with
      | inr err => ret (Some (InvalidBlockStartHeight (NumErr p0 err)))
      | inl height =>
          r <- get ;;
          match activeBlock r with
          | Some b =>
              match Checkpoint b with
              | Some c => log (BlockStartWhileActive (SequenceNumber c) height)
              | None => panic NilDereference
              end
          | None => ret tt
          end ;;
          now <- Now ;;
          r <- get ;;
          put (set_active now (Some emptyCheckpointData) r) ;;
          ret None
      end
  end.

(** [validate]: exactly one parameter, an active block, valid base64. *)
Definition validate (params : list string) (valueType : string)
  : M (list byte * option error) :=
  match validateChunk params 1 with
  | Some err => ret ([], Some (InvalidLogLineLength err))
  | None =>
      r <- get ;;
      match activeBlock r with
      | None => ret ([], Some (NoActiveBlock valueType))
      | Some b =>
          p0 <- index params 0 ;;
          match Go.DecodeString p0 with
          | inr err =>
              ret ([], Some (InvalidBase64 valueType (GetFirehoseBlockNumber b)
                               (CorruptInputErr err)))
          | inl out => ret (out, None)
          end
      end
  end.

(** [r.activeBlock], dereferenced. *)
Definition theActiveBlock : M CheckpointData :=
  r <- get ;;
  match activeBlock r with
  | Some b => ret b
  | None => panic NilDereference
  end.

Definition store (b : CheckpointData) : M unit :=
  r <- get ;;
  put (set_active (activeBlockStartTime r) (Some b) r).

(** [FIRE CHECKPOINT <pbsui.Checkpoint>]. *)
Definition readCheckpointOverview (params : list string) : M (option error) :=
  '(out, err) <- validate params "CHECKPOINT" ;;
  match err with
  | Some e => ret (Some e)
  | None =>
      match Unmarshal out with
      | inr e =>
          b <- theActiveBlock ;;
          ret (Some (InvalidProto "CHECKPOINT" (GetFirehoseBlockNumber b) e))
      | inl checkpoint =>
          b <- theActiveBlock ;;
          store (set_Checkpoint checkpoint b) ;;
          ret None
      end
  end.

(** [FIRE TRX <pbsui.Transaction>]. *)
Definition readTransactionBlock (params : list string) : M (option error) :=
  '(out, err) <- validate params "TRX" ;;
  match err with
  | Some e => ret (Some e)
  | None =>
      match Unmarshal out with
      | inr e =>
          b <- theActiveBlock ;;
          ret (Some (InvalidProto "TRX" (GetFirehoseBlockNumber b) e))
      | inl transaction =>
          b <- theActiveBlock ;;
          store (set_Transactions (Transactions b ++ [transaction]) b) ;;
          ret None
      end
  end.

(** [FIRE OBJ_CHANGE <pbsui.TransactionObjectChange>]. *)
Definition readTransactionObjectChange (params : list string) : M (option error) :=
  '(out, err) <- validate params "OBJ_CHANGE" ;;
  match err with
  | Some e => ret (Some e)
  | None =>
      match Unmarshal out with
      | inr e =>
          b <- theActiveBlock ;;
          ret (Some (InvalidProto "OBJ_CHANGE" (GetFirehoseBlockNumber b) e))
      | inl tx_object_change =>
          b <- theActiveBlock ;;
          store (set_ObjectChange tx_object_change b) ;;
          ret None
      end
  end.

(** [FIRE EVT <pbsui.IndexedEvent>]. *)
Definition readEvent (params : list string) : M (option error) :=
  '(out, err) <- validate params "EVT" ;;
  match err with
  | Some e => ret (Some e)
  | None =>
      match Unmarshal out with
      | inr e =>
          b <- theActiveBlock ;;
          ret (Some (InvalidProto "EVT" (GetFirehoseBlockNumber b) e))
      | inl event =>
          b <- theActiveBlock ;;
          store (set_Events (Events b ++ [event]) b) ;;
          ret None
      end
  end.

(** [FIRE DSP_UPDATE <pbsui.StoredDisplay>]. *)
Definition readDisplayUpdate (params : list string) : M (option error) :=
  '(out, err) <- validate params "DSP_UPDATE" ;;
  match err with
  | Some e => ret (Some e)
  | None =>
      match Unmarshal out with
      | inr e =>
          b <- theActiveBlock ;;
          ret (Some (InvalidProto "DSP_UPDATE" (GetFirehoseBlockNumber b) e))
      | inl display_update =>
          b <- theActiveBlock ;;
          store (set_DisplayUpdates (DisplayUpdates b ++ [display_update]) b) ;;
          ret None
      end
  end.

(** The four updates of [r.stats] at the end of a block. *)
Definition completed (b : CheckpointData) (start : Time) (s : consoleReaderStats)
  : consoleReaderStats :=
  {| lastBlock := AsRef b;
     blockRate := blockRate s + 1;
     blockAverageParseTime := start :: blockAverageParseTime s;
     transactionRate := transactionRate s + Z.of_nat (List.length (Transactions b)) |}.

Definition set_stats (s : consoleReaderStats) (r : ConsoleReader) : ConsoleReader :=
  {| activeBlockStartTime := activeBlockStartTime r; activeBlock := activeBlock r;
     chainID := chainID r; initRead := initRead r; stats := s |}.

Definition resetActiveBlock : M unit :=
  r <- get ;;
  put (set_active 0 None r).

(** [r.encoder.Encode(enveloppe)]. *)
Definition callEncode (enveloppe : BlockEnveloppe)
  : M (option pbbstream_Block * option error) :=
  r <- get ;;
  emit (Encoded enveloppe r) ;;
  ret (Encode enveloppe).

(** [FIRE BLOCK_END <height>]. *)
Definition readBlockEnd (params : list string)
  : M (option pbbstream_Block * option error) :=
  match validateChunk params 1 with
  | Some err => ret (None, Some (InvalidBlockEndLine err))
  | None =>
      p0 <- index params 0 ;;
      match Go.ParseUint p0 with
      | inr err => ret (None, Some (InvalidBlockEndHeight (NumErr p0 err)))
      | inl height =>
          r <- get ;;
          match activeBlock r with
          | None => ret (None, Some (NoActiveBlock "BLOCK_END"))
          | Some b =>
              if negb (GetFirehoseBlockNumber b =? height) then
                ret (None, Some (HeightMismatch (GetFirehoseBlockNumber b) height))
              else if (List.length (Transactions b) =? 0)%nat then
                ret (None, Some (EmptyBlock (GetFirehoseBlockNumber b)))
              else
                put (set_stats (completed b (activeBlockStartTime r) (stats r)) r) ;;
                log (NodeBlock (GetFirehoseBlockID b) (GetFirehoseBlockNumber b)
                       (GetFirehoseBlockTime b)) ;;
                let block := b in
                resetActiveBlock ;;
                '(bstreamBlock, err) <-
                  callEncode {| Block := block; LIBNum := GetFirehoseBlockLIBNum block |} ;;
                match err with
                | Some e => ret (None, Some e)
                | None => ret (bstreamBlock, None)
                end
          end
      end
  end.

(** What one turn of [next]'s loop does: go on with the following line, or
    return.  [out] is an [interface{}]: [None] is [nil], [Some p] holds the
    pointer [p]. *)
Inductive Turn : Type :=
| Continue
| Return (out : option (option pbbstream_Block)) (err : option error).

(** The [if err != nil] that follows [next]'s switch. *)
Definition after_switch (line : string) (err : option error) : Turn :=
  match err with
  | Some e => Return None (Some (lineError line e))
  | None => Continue
  end.

(** The loop body of [next] from the handshake gate on, for a [line]
    split into at least two [tokens]: before the handshake only [INIT] is
    read; after it the switch on [tokens[0]]. *)
Definition dispatch (line : string) (tokens : list string) : M Turn :=
  tokens0 <- index tokens 0 ;;
  let params := tl tokens in
  r <- get ;;
  if negb (initRead r) then
    if (tokens0 =? LogInit)%string then
      err <- readInit params ;;
      match err with
      | Some e => ret (Return None (Some (lineError line e)))
      | None => ret Continue
      end
    else
      log (SkippingBeforeInit tokens0) ;;
      ret Continue
  else if (tokens0 =? LogCheckpoint)%string then
    err <- readCheckpointOverview params ;; ret (after_switch line err)
  else if (tokens0 =? LogTrx)%string then
    err <- readTransactionBlock params ;; ret (after_switch line err)
  else if (tokens0 =? LogObjChange)%string then
    err <- readTransactionObjectChange params ;; ret (after_switch line err)
  else if (tokens0 =? LogEvent)%string then
    err <- readEvent params ;; ret (after_switch line err)
  else if (tokens0 =? LogDisplayUpdate)%string then
    err <- readDisplayUpdate params ;; ret (after_switch line err)
  else if (tokens0 =? LogBlockStart)%string then
    err <- readBlockStart params ;; ret (after_switch line err)
  else if (tokens0 =? LogBlockEnd)%string then
    '(block, err) <- readBlockEnd params ;;
    match err with
    | Some e => ret (Return None (Some (lineError line e)))
    | None => ret (Return (Some block) None)
    end
  else if (tokens0 =? LogInit)%string then
    ret (after_switch line (Some InitAlreadyRead))
  else
    (if DebugEnabled then log (SkippingUnknown line) else ret tt) ;;
    ret Continue.

(** The body of [next]'s loop, for one received [line]: the prefix test,
    [line[len(LogPrefix)+1:]], the split and the two-token check, then
    [dispatch]. *)
Definition next_line (line : string) : M Turn :=
  if negb (Go.HasPrefix line LogPrefix) then ret Continue
  else
    match Go.slice_from (String.length LogPrefix + 1) line with
    | None => panic SliceOutOfRange
    | Some rest =>
        let tokens := Go.Split rest in
        if (List.length tokens <? 2)%nat then
          ret (Return None (Some (InvalidLogLine line)))
        else dispatch line tokens
    end.

(** [for line := range r.lines] over the lines [ls] the channel holds. *)
Fixpoint next_from (ls : list string)
  : M (option (option pbbstream_Block) * option error) :=
  match ls with
  | [] =>
      log ChannelClosed ;;
      ret (None, Some EOF)
  | line :: rest =>
      received rest ;;
      turn <- next_line line ;;
      match turn with
      | Continue => next_from rest
      | Return out err => ret (out, err)
      end
  end.

Definition next : M (option (option pbbstream_Block) * option error) :=
  fun w => next_from (lines w) w.

Definition ReadBlock : M (option pbbstream_Block * option error) :=
  '(block, err) <- next ;;
  match err with
  | Some e => ret (None, Some e)
  | None =>
      match block with
      | None => ret (None, Some NilBlock)
      | Some b => ret (b, None)
      end
  end.

End Functions.

(** ** The worlds the reader's functions leave, and the lines they read *)

Section Outcomes.

Context {schemas : Schemas} {model : BlockModel} {encoder : BlockEncoder} {host : Host}.

(** The world [readInit] leaves when it accepts the handshake. *)
Definition handshaken (clientName clientVersion fork : string) (major minor : Z)
    (id : string) (w : World) : World :=
  let w1 := with_event
              (Logged (Initialized clientName clientVersion fork major minor id)) w in
  with_reader (set_handshake id (reader w1)) w1.

(** The line the node prints for a command with one parameter. *)
Definition fire (name p : string) : string :=
  LogPrefix ++ " " ++ name ++ " " ++ p.

(** The enveloppes handed to the encoder in a trace, oldest first. *)
Fixpoint encoded (t : list Event) : list BlockEnveloppe :=
  match t with
  | [] => []
  | Logged _ :: t' => encoded t'
  | Encoded enveloppe _ :: t' => enveloppe :: encoded t'
  end.

(** The log entries of a trace, oldest first. *)
Fixpoint logged (t : list Event) : list LogEntry :=
  match t with
  | [] => []
  | Logged entry :: t' => entry :: logged t'
  | Encoded _ _ :: t' => logged t'
  end.

(** The world [readBlockStart] leaves when no block was active: the clock
    read once, its reading stored, an empty accumulator. *)
Definition started (w : World) : World :=
  let w1 := with_tick w in
  with_reader (set_active (time_Now (ticks w)) (Some emptyCheckpointData) (reader w1)) w1.

(** The world in which the accumulator has become [b]. *)
Definition storing (b : CheckpointData) (w : World) : World :=
  with_reader (set_active (activeBlockStartTime (reader w)) (Some b) (reader w)) w.

(** The enveloppe [readBlockEnd] makes of the block [b]. *)
Definition enveloppe_of (b : CheckpointData) : BlockEnveloppe :=
  {| Block := b; LIBNum := GetFirehoseBlockLIBNum b |}.

(** The reader once [readBlockEnd] has counted the block [b] and reset the
    accumulator. *)
Definition finished_reader (b : CheckpointData) (r : ConsoleReader) : ConsoleReader :=
  set_active 0 None (set_stats (completed b (activeBlockStartTime r) (stats r)) r).

(** The world [readBlockEnd] leaves when it completes the block [b]. *)
Definition finished (b : CheckpointData) (w : World) : World :=
  with_event (Encoded (enveloppe_of b) (finished_reader b (reader w)))
    (with_reader (finished_reader b (reader w))
       (with_event
          (Logged (NodeBlock (GetFirehoseBlockID b) (GetFirehoseBlockNumber b)
                     (GetFirehoseBlockTime b))) w)).

(** What [readBlockEnd] returns for the encoder's answer. *)
Definition encoded_result (answer : option pbbstream_Block * option error)
  : option pbbstream_Block * option error :=
  match answer with
  | (_, Some e) => (None, Some e)
  | (bstreamBlock, None) => (bstreamBlock, None)
  end.

(** What [ReadBlock] returns for the encoder's answer to the last line
    [line]. *)
Definition surfaced (line : string) (answer : option pbbstream_Block * option error)
  : option pbbstream_Block * option error :=
  match answer with
  | (_, Some e) => (None, Some (lineError line e))
  | (bstreamBlock, None) => (bstreamBlock, None)
  end.

(** What an accumulation command does with its one parameter [p]: a
    [handler] that reports [valueType] and stores a decoded payload with
    [put_in]. *)
Definition accumulates {T : Type} {message : ProtoMessage T}
    (handler : list string -> M (option error)) (valueType : string)
    (put_in : T -> CheckpointData -> CheckpointData) : Prop :=
  forall (p : string) (w : World),
    match activeBlock (reader w) with
    | None => handler [p] w = Done (Some (NoActiveBlock valueType)) w
    | Some b =>
        match Go.DecodeString p with
        | inr err =>
            handler [p] w
            = Done (Some (InvalidBase64 valueType (GetFirehoseBlockNumber b)
                            (CorruptInputErr err))) w
        | inl out =>
            match Unmarshal out with
            | inr e =>
                handler [p] w
                = Done (Some (InvalidProto valueType (GetFirehoseBlockNumber b) e)) w
            | inl payload => handler [p] w = Done None (storing (put_in payload b) w)
            end
        end
    end.

(** The command word and the parameters [next]'s loop body finds in a
    line, when it finds at least two tokens after the prefix. *)
Definition command_of (line : string) : option (string * list string) :=
  if Go.HasPrefix line LogPrefix then
    match Go.slice_from (String.length LogPrefix + 1) line with
    | Some rest =>
        match Go.Split rest with
        | name :: p :: ps => Some (name, p :: ps)
        | _ => None
        end
    | None => None
    end
  else None.



(** A reader just made by [NewConsoleReader], on a channel that delivers
    [ls] and is then closed. *)
Definition fresh (ls : list string) : World :=
  {| reader := NewConsoleReader; lines := ls; trace := []; ticks := 0 |}.

(** A handshake line. *)
Definition init_line : string :=
  "FIRE INIT sui 1.14.0 mainnet 0 1 4btiuiMPvEENsttpZC7CZ53DruC3MAgfznDbASZ7DR6S".

(** A reader past the handshake of [init_line], with no active block, the
    channel [ls] and an empty trace. *)
Definition ready (ls : list string) : World :=
  {| reader := {| activeBlockStartTime := 0; activeBlock := None;
                  chainID := "4btiuiMPvEENsttpZC7CZ53DruC3MAgfznDbASZ7DR6S";
                  initRead := true; stats := newConsoleReaderStats |};
     lines := ls; trace := []; ticks := 0 |}.

(** A reader past that handshake that is accumulating [b], started at
    clock reading 1000, with the channel [ls] and an empty trace. *)
Definition accumulating (b : CheckpointData) (ls : list string) : World :=
  {| reader := {| activeBlockStartTime := 1000; activeBlock := Some b;
                  chainID := "4btiuiMPvEENsttpZC7CZ53DruC3MAgfznDbASZ7DR6S";
                  initRead := true; stats := newConsoleReaderStats |};
     lines := ls; trace := []; ticks := 1 |}.

(** A computation that leaves the channel as it is. *)
Definition keeps_lines {A : Type} (m : M A) : Prop :=
  forall (w : World) (a : A) (w' : World), m w = Done a w' -> lines w' = lines w.


(** The turn of [next]'s loop that [readBlockEnd]'s answer makes for
    [line]. *)
Definition turn_of (line : string) (answer : option pbbstream_Block * option error)
  : Turn :=
  match answer with
  | (_, Some e) => Return None (Some (lineError line e))
  | (bstreamBlock, None) => Return (Some bstreamBlock) None
  end.

(** Everything one turn of [next]'s loop can do with a [line] when it
    does not panic: the turn it takes and the world it leaves. *)
Inductive Effect (line : string) (w : World) : Turn -> World -> Prop :=
| PassedOver : Effect line w Continue w
| Warned (name : string) :
    initRead (reader w) = false ->
    Effect line w Continue (with_event (Logged (SkippingBeforeInit name)) w)
| Unknown :
    initRead (reader w) = true ->
    Effect line w Continue (with_event (Logged (SkippingUnknown line)) w)
| TooFewTokens : Effect line w (Return None (Some (InvalidLogLine line))) w
| Failed (source : error) : Effect line w (Return None (Some (LineError source line))) w
| Handshaken (clientName clientVersion fork id : string) :
    initRead (reader w) = false ->
    Effect line w Continue (handshaken clientName clientVersion fork 0 0 id w)
| Started :
    initRead (reader w) = true -> activeBlock (reader w) = None ->
    Effect line w Continue (started w)
| Restarted (b : CheckpointData) (c : pbsui_Checkpoint) (height : Z) :
    initRead (reader w) = true ->
    activeBlock (reader w) = Some b -> Checkpoint b = Some c ->
    Effect line w Continue
      (started (with_event
                  (Logged (BlockStartWhileActive (SequenceNumber c) height)) w))
| Stored (b b' : CheckpointData) :
    initRead (reader w) = true -> activeBlock (reader w) = Some b ->
    Effect line w Continue (storing b' w)
| Finished (b : CheckpointData) :
    initRead (reader w) = true ->
    activeBlock (reader w) = Some b -> Transactions b <> [] ->
    Effect line w (turn_of line (Encode (enveloppe_of b))) (finished b w).

(** The transactions of the blocks of a list of enveloppes, counted. *)
Fixpoint transactions_in (es : list BlockEnveloppe) : Z :=
  match es with
  | [] => 0
  | e :: es' => Z.of_nat (List.length (Transactions (Block e))) + transactions_in es'
  end.

(** The statistics and the accumulator of a reader agree with what it has
    handed to the encoder so far: the block counter is the number of
    blocks handed over, the transaction counter the number of their
    transactions, one start time was recorded for each, the last block is
    the reference of the latest (or still the initial one), every block handed over holds a
    transaction and came with its own LIB number, and before the handshake
    there is neither an accumulator nor a block handed over. *)
Definition agreement (r : ConsoleReader) (t : list Event) : Prop :=
  blockRate (stats r) = Z.of_nat (List.length (encoded t))
  /\ transactionRate (stats r) = transactions_in (encoded t)
  /\ List.length (blockAverageParseTime (stats r)) = List.length (encoded t)
  /\ lastBlock (stats r)
     = last (map (fun e => AsRef (Block e)) (encoded t)) (lastBlock newConsoleReaderStats)
  /\ Forall (fun e => Transactions (Block e) <> []
                      /\ LIBNum e = GetFirehoseBlockLIBNum (Block e)) (encoded t)
  /\ (initRead r = false -> activeBlock r = None /\ encoded t = []).

(** The worlds a reader made by [NewConsoleReader] can be in, over any
    lines: [ReadBlock] may have been called any number of times. *)
Inductive reachable : World -> Prop :=
| reach_fresh (ls : list string) : reachable (fresh ls)
| reach_read (w w' : World) (res : option pbbstream_Block * option error) :
    reachable w -> ReadBlock w = Done res w' -> reachable w'.

(** [zap.Field]s as [ZapFields] makes them: a counter of [dmetrics] by what
    it was fed, a number, a string. *)
Inductive Field : Type :=
| Stringer_rate (key : string) (fed : Z)
| Stringer_average (key : string) (starts : list Time)
| Uint64 (key : string) (n : Z)
| String_ (key : string) (s : string).

(** [consoleReaderStats.ZapFields] of [console_stats.go]. *)
Definition ZapFields (s : consoleReaderStats) : list Field :=
  [Stringer_rate "block_rate" (blockRate s);
   Stringer_rate "trx_rate" (transactionRate s);
   Uint64 "last_block_num" (Num (lastBlock s));
   String_ "last_block_id" (Id (lastBlock s));
   Stringer_average "block_average_parse_time" (blockAverageParseTime s)].

(** The outcome of a run of the loop body: a turn and a world that
    [Effect] allows, or one of the two panics. *)
Definition allowed (line : string) (w : World) (r : Res Turn) : Prop :=
  match r with
  | Done t w' => Effect line w t w'
  | Panic c =>
      (c = SliceOutOfRange /\ line = LogPrefix)
      \/ (c = NilDereference /\ initRead (reader w) = true
          /\ exists p h b,
               command_of line = Some (LogBlockStart, [p])
               /\ Go.ParseUint p = inl h
               /\ activeBlock (reader w) = Some b /\ Checkpoint b = None)
  end.

(** What a line of a block's body brings: a decoded message of one of the
    five kinds. *)
Inductive Payload : Type :=
| ACheckpoint (c : pbsui_Checkpoint)
| ATransaction (t : pbsui_Transaction)
| AnObjectChange (o : pbsui_TransactionObjectChange)
| AnEvent (e : pbsui_IndexedEvent)
| ADisplayUpdate (d : pbsui_StoredDisplay).

(** The assignment with which its handler puts a payload into the
    accumulator. *)
Definition put_payload (x : Payload) (b : CheckpointData) : CheckpointData :=
  match x with
  | ACheckpoint c => set_Checkpoint c b
  | ATransaction t => set_Transactions (Transactions b ++ [t]) b
  | AnObjectChange o => set_ObjectChange o b
  | AnEvent e => set_Events (Events b ++ [e]) b
  | ADisplayUpdate d => set_DisplayUpdates (DisplayUpdates b ++ [d]) b
  end.

(** The message a parameter holds: base64, then [proto.Unmarshal]. *)
Definition decoded {T : Type} {message : ProtoMessage T} (p : string) : option T :=
  match Go.DecodeString p with
  | inl out =>
      match Unmarshal out with
      | inl x => Some x
      | inr _ => None
      end
  | inr _ => None
  end.

(** The payload of a line: that of an accumulation command with one
    parameter that decodes. *)
Definition payload_of (line : string) : option Payload :=
  match command_of line with
  | Some (name, [p]) =>
      if (name =? LogCheckpoint)%string then option_map ACheckpoint (decoded p)
      else if (name =? LogTrx)%string then option_map ATransaction (decoded p)
      else if (name =? LogObjChange)%string then option_map AnObjectChange (decoded p)
      else if (name =? LogEvent)%string then option_map AnEvent (decoded p)
      else if (name =? LogDisplayUpdate)%string then
        option_map ADisplayUpdate (decoded p)
      else None
  | _ => None
  end.

(** The accumulator after the payloads [xs], in their order. *)
Definition accumulate (xs : list Payload) (b : CheckpointData) : CheckpointData :=
  fold_left (fun b x => put_payload x b) xs b.

Definition transactions_of (xs : list Payload) : list pbsui_Transaction :=
  flat_map (fun x => match x with ATransaction t => [t] | _ => [] end) xs.

Definition events_of (xs : list Payload) : list pbsui_IndexedEvent :=
  flat_map (fun x => match x with AnEvent e => [e] | _ => [] end) xs.

Definition display_updates_of (xs : list Payload) : list pbsui_StoredDisplay :=
  flat_map (fun x => match x with ADisplayUpdate d => [d] | _ => [] end) xs.

(** The last checkpoint among the payloads, [c] when there is none. *)
Definition checkpoint_of (xs : list Payload) (c : option pbsui_Checkpoint)
  : option pbsui_Checkpoint :=
  fold_left (fun c x => match x with ACheckpoint c' => Some c' | _ => c end) xs c.

(** The last object change among the payloads, [o] when there is none. *)
Definition object_change_of (xs : list Payload)
    (o : option pbsui_TransactionObjectChange) : option pbsui_TransactionObjectChange :=
  fold_left (fun o x => match x with AnObjectChange o' => Some o' | _ => o end) xs o.



(** The handshakes logged in a trace, oldest first. *)
Definition handshakes (t : list Event) : list LogEntry :=
  filter (fun entry => match entry with
                       | Initialized _ _ _ _ _ _ => true
                       | _ => false
                       end) (logged t).

(** The handshake of a reader agrees with its log: before the handshake
    none is logged and the chain identifier is empty; after it exactly one
    is logged, with the chain identifier the reader holds and with 0 for
    both versions. *)
Definition one_handshake (r : ConsoleReader) (t : list Event) : Prop :=
  match handshakes t with
  | [] => initRead r = false /\ chainID r = ""
  | [Initialized _ _ _ major minor id] =>
      initRead r = true /\ chainID r = id /\ major = 0 /\ minor = 0
  | _ => False
  end.

(** [n] successive calls of [ReadBlock], with what each returned. *)
Fixpoint ReadBlocks (n : nat) : M (list (option pbbstream_Block * option error)) :=
  match n with
  | O => ret []
  | S n' =>
      bind ReadBlock (fun result =>
      bind (ReadBlocks n') (fun results => ret (result :: results)))
  end.

(** The lines the node prints for one block: the two heights as it
    prints them, and the lines between. *)
Record BlockLines : Type := {
  start_height : string;
  body_lines : list string;
  end_height : string
}.

Definition lines_of (bl : BlockLines) : list string :=
  fire LogBlockStart (start_height bl)
    :: body_lines bl ++ [fire LogBlockEnd (end_height bl)].

(** The payloads of the lines of a body, when each line has one. *)
Fixpoint payloads_of (body : list string) : option (list Payload) :=
  match body with
  | [] => Some []
  | line :: body' =>
      match payload_of line, payloads_of body' with
      | Some x, Some xs => Some (x :: xs)
      | _, _ => None
      end
  end.

(** The block the lines of [bl] describe, when they are in order: both
    heights are numbers, every line of the body has a payload, the block
    accumulated from them reports the height of the [BLOCK_END] and holds
    a transaction. *)
Definition block_of (bl : BlockLines) : option CheckpointData :=
  match Go.ParseUint (start_height bl), payloads_of (body_lines bl),
        Go.ParseUint (end_height bl) with
  | inl _, Some xs, inl n =>
      let b := accumulate xs emptyCheckpointData in
      if (GetFirehoseBlockNumber b =? n)
         && negb (List.length (Transactions b) =? 0)%nat
      then Some b else None
  | _, _, _ => None
  end.

(** What [ReadBlock] returns for each of the blocks [bs] printed as
    [bls]. *)
Fixpoint answers (bls : list BlockLines) (bs : list CheckpointData)
  : list (option pbbstream_Block * option error) :=
  match bls, bs with
  | bl :: bls', b :: bs' =>
      surfaced (fire LogBlockEnd (end_height bl)) (Encode (enveloppe_of b))
        :: answers bls' bs'
  | _, _ => []
  end.

End Outcomes.

(** ** Sample collaborators, to run the reader on concrete lines *)

Module Sample.

(** Modelled from the spec: the generated protobuf package [pbsui] is not
    among the sources, and the spec leaves the schemas to "the binary
    payload decoder for each declared schema (assumed available, given a
    byte buffer)".  Here a checkpoint is its sequence number, written as
    big-endian bytes, and every other message is its bytes. *)
Definition number_of_bytes (bs : list byte) : Z :=
  fold_left (fun acc b => acc * 256 + Z.of_N (Byte.to_N b)) bs 0.

#[export] Instance schemas : Schemas := {|
  pbsui_Checkpoint := Z;
  SequenceNumber := fun c => c;
  pbsui_Transaction := list byte;
  pbsui_TransactionObjectChange := list byte;
  pbsui_IndexedEvent := list byte;
  pbsui_StoredDisplay := list byte;
  Checkpoint_message := {| Unmarshal := fun bs => inl (number_of_bytes bs) |};
  Transaction_message := {| Unmarshal := fun bs => inl bs |};
  TransactionObjectChange_message := {| Unmarshal := fun bs => inl bs |};
  IndexedEvent_message := {| Unmarshal := fun bs => inl bs |};
  StoredDisplay_message := {| Unmarshal := fun bs => inl bs |}
|}.

(** Modelled from the spec: the accessors of [*pbsui.CheckpointData] are
    not among the sources.  The spec's "accumulator's sequence number" is
    read from the checkpoint summary, the only place the accumulator built
    by [readBlockStart] can hold one; without a summary it is [0]. *)
Definition number (b : CheckpointData) : Z :=
  match Checkpoint b with
  | Some c => SequenceNumber c
  | None => 0
  end.

#[export] Instance model : BlockModel := {|
  GetFirehoseBlockID := fun _ => "";
  GetFirehoseBlockNumber := number;
  GetFirehoseBlockTime := fun _ => 0;
  GetFirehoseBlockLIBNum := fun b => Z.max 0 (number b - 1);
  AsRef := fun b => {| Num := number b; Id := "" |}
|}.

(** An encoder that hands the enveloppe back as the block. *)
#[export] Instance encoder : BlockEncoder := {|
  pbbstream_Block := BlockEnveloppe;
  Encode := fun enveloppe => (Some enveloppe, None)
|}.

(** An encoder that always fails. *)
Definition failing_encoder : BlockEncoder := {|
  pbbstream_Block := BlockEnveloppe;
  Encode := fun _ => (None, Some (Foreign "encoder failure"))
|}.

#[export] Instance host : Host := {|
  time_Now := fun k => 1000 + Z.of_nat k;
  DebugEnabled := true
|}.

(** Two payloads: the bytes of the texts [hi] and [h], whose base64 texts
    are [aGk=] and [aA==]. *)
Definition payload_hi : list byte := [x68; x69].
Definition payload_h : list byte := [x68].

(** A block of height 10 with one transaction. *)
Definition block10 : CheckpointData :=
  {| Checkpoint := Some 10; Transactions := [payload_hi]; ObjectChange := None;
     Events := []; DisplayUpdates := [] |}.


(** A block of height 11 with one transaction. *)
Definition block11 : CheckpointData :=
  {| Checkpoint := Some 11; Transactions := [payload_h]; ObjectChange := None;
     Events := []; DisplayUpdates := [] |}.

(** The lines of a handshake and of a block of height 10 with one
    transaction, and the world a fresh reader is in once it has read
    them. *)
Definition one_block : list string :=
  [init_line; "FIRE BLOCK_START 10"; "FIRE CHECKPOINT Cg=="; "FIRE TRX aGk=";
   "FIRE BLOCK_END 10"].

Definition after_one_block : World :=
  finished block10
    (storing block10
       (started
          (handshaken "sui" "1.14.0" "mainnet" 0 0
             "4btiuiMPvEENsttpZC7CZ53DruC3MAgfznDbASZ7DR6S" (fresh [])))).

End Sample.

(** * Properties *)

(** ** Facts about the Go functions *)

Module GoFacts.
Import Go.

Lemma Split_nonempty (s : string) : Split s <> [].
Proof.
  induction s as [|c s IH]; simpl; [discriminate|].
  destruct (Ascii.eqb c space); [discriminate|].
  destruct (Split s); [contradiction|discriminate].
Qed.

(** A string with no space is one token. *)
Lemma Split_no_space (s : string) : has_space s = false -> Split s = [s].
Proof.
  induction s as [|c s IH]; simpl; intro H; [reflexivity|].
  apply orb_false_iff in H as [Hc Hs].
  rewrite Hc, (IH Hs). reflexivity.
Qed.

(** [Split] cuts at the first space. *)
Lemma Split_app (a b : string) :
  has_space a = false -> Split (a ++ String space b) = a :: Split b.
Proof.
  induction a as [|c a IH]; simpl; intro H.
  - reflexivity.
  - apply orb_false_iff in H as [Hc Ha].
    rewrite Hc, (IH Ha). reflexivity.
Qed.

(** A string with [k] spaces has [k + 1] tokens: one token exactly when
    there is no space. *)
Lemma Split_length_lt_2 (s : string) :
  (List.length (Split s) <? 2)%nat = negb (has_space s).
Proof.
  induction s as [|c s IH]; simpl; [reflexivity|].
  destruct (Ascii.eqb c space); simpl.
  - pose proof (Split_nonempty s). destruct (Split s); [contradiction|reflexivity].
  - pose proof (Split_nonempty s).
    destruct (Split s) as [|t ts]; [contradiction|].
    simpl in *. exact IH.
Qed.

Lemma digit_of_space : digit_of space = None.
Proof. reflexivity. Qed.

Lemma digit_of_not_space (c : ascii) (d : Z) :
  digit_of c = Some d -> Ascii.eqb c space = false.
Proof.
  intro H. destruct (Ascii.eqb_spec c space) as [->|]; [|reflexivity].
  rewrite digit_of_space in H. discriminate.
Qed.

Lemma parse_digits_no_space (s : string) :
  forall n v, parse_digits s n = inl v -> has_space s = false.
Proof.
  induction s as [|c s IH]; simpl; intros n v H; [reflexivity|].
  destruct (digit_of c) as [d|] eqn:Hd; [|discriminate].
  rewrite (digit_of_not_space _ _ Hd). simpl.
  destruct (cutoff <=? n); [discriminate|].
  destruct (maxUint64 <? n * 10 + d); [discriminate|].
  exact (IH _ _ H).
Qed.

(** What [ParseUint] accepts holds no space. *)
Lemma ParseUint_no_space (s : string) (v : Z) :
  ParseUint s = inl v -> has_space s = false.
Proof.
  destruct s as [|c s]; [discriminate|].
  unfold ParseUint. apply parse_digits_no_space.
Qed.

Lemma parse_digits_range (s : string) :
  forall n v, 0 <= n <= maxUint64 -> parse_digits s n = inl v -> 0 <= v <= maxUint64.
Proof.
  induction s as [|c s IH]; simpl; intros n v Hn H.
  - injection H as <-. exact Hn.
  - destruct (digit_of c) as [d|] eqn:Hd; [|discriminate].
    destruct (cutoff <=? n); [discriminate|].
    destruct (maxUint64 <? n * 10 + d) eqn:Hmax; [discriminate|].
    apply (IH (n * 10 + d) v); [|exact H].
    apply Z.ltb_ge in Hmax. split; [|exact Hmax].
    unfold digit_of in Hd.
    destruct ((48 <=? Z.of_N (N_of_ascii c)) && (Z.of_N (N_of_ascii c) <=? 57)) eqn:E;
      [|discriminate].
    injection Hd as <-. apply andb_true_iff in E as [E1 _].
    apply Z.leb_le in E1. lia.
Qed.

(** What [ParseUint] returns is a [uint64]. *)
Lemma ParseUint_range (s : string) (v : Z) :
  ParseUint s = inl v -> 0 <= v <= maxUint64.
Proof.
  destruct s as [|c s]; [discriminate|].
  unfold ParseUint. apply parse_digits_range.
  unfold maxUint64. lia.
Qed.







(** *** [DecodeString] undoes [EncodeToString] *)

Lemma decodeMap_encodeStd_small (n : nat) :
  (n < 64)%nat ->
  decodeMap (encodeStd (Z.of_nat n)) = Some (Z.of_nat n)
  /\ is_newline (encodeStd (Z.of_nat n)) = false.
Proof.
  intro H. do 64 (destruct n as [|n]; [split; reflexivity|]). lia.
Qed.

Lemma land_63_range (v : Z) : 0 <= Z.land v 63 < 64.
Proof.
  change 63 with (Z.ones 6). rewrite Z.land_ones by lia.
  apply Z.mod_pos_bound. reflexivity.
Qed.

Lemma encodeStd_land (v : Z) : encodeStd (Z.land v 63) = encodeStd v.
Proof.
  unfold encodeStd. cbv zeta. rewrite <- Z.land_assoc. reflexivity.
Qed.

Lemma decodeMap_encodeStd (v : Z) :
  decodeMap (encodeStd v) = Some (Z.land v 63) /\ is_newline (encodeStd v) = false.
Proof.
  rewrite <- encodeStd_land.
  pose proof (land_63_range v) as H.
  rewrite <- (Z2Nat.id (Z.land v 63)) by lia.
  apply decodeMap_encodeStd_small. lia.
Qed.

(** The bits of shifted and masked values, at any index. *)

Lemma testbit_ones (k n : Z) :
  0 <= k -> Z.testbit (Z.ones k) n = (0 <=? n) && (n <? k).
Proof.
  intro Hk. destruct (Z.leb_spec 0 n).
  - rewrite Z.testbit_ones_nonneg by lia. reflexivity.
  - rewrite Z.testbit_neg_r by lia. reflexivity.
Qed.

Lemma testbit_shiftl (a k n : Z) :
  0 <= k -> Z.testbit (Z.shiftl a k) n = (k <=? n) && Z.testbit a (n - k).
Proof.
  intro Hk. destruct (Z.leb_spec k n).
  - rewrite Z.shiftl_spec by lia. reflexivity.
  - destruct (Z.leb_spec 0 n).
    + rewrite Z.shiftl_spec by lia. rewrite Z.testbit_neg_r by lia. reflexivity.
    + rewrite Z.testbit_neg_r by lia. reflexivity.
Qed.

Lemma testbit_shiftr (a k n : Z) :
  Z.testbit (Z.shiftr a k) n = (0 <=? n) && Z.testbit a (n + k).
Proof.
  destruct (Z.leb_spec 0 n).
  - rewrite Z.shiftr_spec by lia. reflexivity.
  - rewrite Z.testbit_neg_r by lia. reflexivity.
Qed.

(** Decides an equation between bits of one value, guarded by
    comparisons of the index with constants. *)
Ltac by_ranges :=
  repeat match goal with
         | |- context [(?a <=? ?b)] => destruct (Z.leb_spec a b); try lia
         | |- context [(?a <? ?b)] => destruct (Z.ltb_spec a b); try lia
         end;
  cbn [andb orb];
  rewrite ?andb_false_r, ?andb_true_r, ?orb_false_r;
  cbn [andb orb];
  try reflexivity;
  try (f_equal; lia).

Ltac bitwise :=
  let n := fresh "n" in
  let Hn := fresh "Hn" in
  apply Z.bits_inj'; intros n Hn;
  unfold quantum;
  change 255 with (Z.ones 8); change 63 with (Z.ones 6);
  repeat first
    [ rewrite Z.land_spec | rewrite Z.lor_spec
    | rewrite testbit_ones by lia
    | rewrite testbit_shiftl by lia
    | rewrite testbit_shiftr | rewrite Z.bits_0 ];
  by_ranges.

Section Quantum.

Variable val : Z.

Let s (k : Z) : Z := Z.land (Z.shiftr val k) 63.

Lemma quantum_byte0 (d2 d3 : Z) :
  (d2 = s 6 \/ d2 = 0) -> (d3 = s 0 \/ d3 = 0) ->
  Z.land (Z.shiftr (quantum (s 18) (s 12) d2 d3) 16) 255
  = Z.land (Z.shiftr val 16) 255.
Proof.
  subst s. cbv beta. intros [-> | ->] [-> | ->]; bitwise.
Qed.

Lemma quantum_byte1 (d3 : Z) :
  (d3 = s 0 \/ d3 = 0) ->
  Z.land (Z.shiftr (quantum (s 18) (s 12) (s 6) d3) 8) 255
  = Z.land (Z.shiftr val 8) 255.
Proof.
  subst s. cbv beta. intros [-> | ->]; bitwise.
Qed.

Lemma quantum_byte2 :
  Z.land (quantum (s 18) (s 12) (s 6) (s 0)) 255 = Z.land val 255.
Proof.
  subst s. cbv beta. bitwise.
Qed.

End Quantum.

Lemma Z_of_byte_land (b : byte) : Z_of_byte b = Z.land (Z_of_byte b) 255.
Proof. destruct b; reflexivity. Qed.

Lemma byte_of_Z_of_byte (b : byte) : byte_of_Z (Z_of_byte b) = b.
Proof. destruct b; reflexivity. Qed.

Lemma byte_of_Z_land (v v' : Z) : Z.land v 255 = Z.land v' 255 -> byte_of_Z v = byte_of_Z v'.
Proof. unfold byte_of_Z. intros ->. reflexivity. Qed.

Section Packing.

Variables x0 x1 x2 : Z.

Let b0 := Z.land x0 255.
Let b1 := Z.land x1 255.
Let b2 := Z.land x2 255.

Lemma packed_byte0 (lo1 lo2 : Z) :
  (lo1 = Z.shiftl b1 8 \/ lo1 = 0) -> (lo2 = b2 \/ lo2 = 0) ->
  Z.land (Z.shiftr (Z.lor (Z.lor (Z.shiftl b0 16) lo1) lo2) 16) 255 = Z.land b0 255.
Proof. subst b0 b1 b2. intros [-> | ->] [-> | ->]; bitwise. Qed.

Lemma packed_byte1 (lo2 : Z) :
  (lo2 = b2 \/ lo2 = 0) ->
  Z.land (Z.shiftr (Z.lor (Z.lor (Z.shiftl b0 16) (Z.shiftl b1 8)) lo2) 8) 255
  = Z.land b1 255.
Proof. subst b0 b1 b2. intros [-> | ->]; bitwise. Qed.

Lemma packed_byte2 :
  Z.land (Z.lor (Z.lor (Z.shiftl b0 16) (Z.shiftl b1 8)) b2) 255 = Z.land b2 255.
Proof. subst b0 b1 b2. bitwise. Qed.

End Packing.

Lemma shiftr_0 (v : Z) : Z.land v 63 = Z.land (Z.shiftr v 0) 63.
Proof. rewrite Z.shiftr_0_r. reflexivity. Qed.

Lemma group_of_three (b0 b1 b2 : byte) :
  let val := pack3 b0 b1 b2 in
  let q := quantum (Z.land (Z.shiftr val 18) 63) (Z.land (Z.shiftr val 12) 63)
             (Z.land (Z.shiftr val 6) 63) (Z.land val 63) in
  byte_of_Z (Z.shiftr q 16) = b0 /\ byte_of_Z (Z.shiftr q 8) = b1 /\ byte_of_Z q = b2.
Proof.
  intros val q. subst q. rewrite (shiftr_0 val).
  repeat split.
  - rewrite (byte_of_Z_land _ _ (quantum_byte0 val _ _ (or_introl eq_refl) (or_introl eq_refl))).
    transitivity (byte_of_Z (Z_of_byte b0)); [|apply byte_of_Z_of_byte].
    apply byte_of_Z_land.
    subst val. unfold pack3.
    rewrite (Z_of_byte_land b0), (Z_of_byte_land b1), (Z_of_byte_land b2).
    rewrite (packed_byte0 _ _ _ _ _ (or_introl eq_refl) (or_introl eq_refl)).
    rewrite <- Z_of_byte_land. reflexivity.
  - rewrite (byte_of_Z_land _ _ (quantum_byte1 val _ (or_introl eq_refl))).
    transitivity (byte_of_Z (Z_of_byte b1)); [|apply byte_of_Z_of_byte].
    apply byte_of_Z_land.
    subst val. unfold pack3.
    rewrite (Z_of_byte_land b0), (Z_of_byte_land b1), (Z_of_byte_land b2).
    rewrite (packed_byte1 _ _ _ _ (or_introl eq_refl)).
    rewrite <- Z_of_byte_land. reflexivity.
  - rewrite (byte_of_Z_land _ _ (quantum_byte2 val)).
    transitivity (byte_of_Z (Z_of_byte b2)); [|apply byte_of_Z_of_byte].
    apply byte_of_Z_land.
    subst val. unfold pack3.
    rewrite (Z_of_byte_land b0), (Z_of_byte_land b1), (Z_of_byte_land b2).
    rewrite packed_byte2.
    rewrite <- Z_of_byte_land. reflexivity.
Qed.

Lemma group_of_two (b0 b1 : byte) :
  let val := Z.lor (Z.shiftl (Z_of_byte b0) 16) (Z.shiftl (Z_of_byte b1) 8) in
  let q := quantum (Z.land (Z.shiftr val 18) 63) (Z.land (Z.shiftr val 12) 63)
             (Z.land (Z.shiftr val 6) 63) 0 in
  byte_of_Z (Z.shiftr q 16) = b0 /\ byte_of_Z (Z.shiftr q 8) = b1.
Proof.
  intros val q. subst q. split.
  - rewrite (byte_of_Z_land _ _ (quantum_byte0 val _ _ (or_introl eq_refl) (or_intror eq_refl))).
    transitivity (byte_of_Z (Z_of_byte b0)); [|apply byte_of_Z_of_byte].
    apply byte_of_Z_land. subst val.
    rewrite (Z_of_byte_land b0), (Z_of_byte_land b1), <- (Z.lor_0_r (Z.lor _ _)).
    rewrite (packed_byte0 _ _ 0 _ _ (or_introl eq_refl) (or_intror eq_refl)).
    rewrite <- Z_of_byte_land. reflexivity.
  - rewrite (byte_of_Z_land _ _ (quantum_byte1 val _ (or_intror eq_refl))).
    transitivity (byte_of_Z (Z_of_byte b1)); [|apply byte_of_Z_of_byte].
    apply byte_of_Z_land. subst val.
    rewrite (Z_of_byte_land b0), (Z_of_byte_land b1), <- (Z.lor_0_r (Z.lor _ _)).
    rewrite (packed_byte1 _ _ 0 _ (or_intror eq_refl)).
    rewrite <- Z_of_byte_land. reflexivity.
Qed.

Lemma group_of_one (b0 : byte) :
  let val := Z.shiftl (Z_of_byte b0) 16 in
  let q := quantum (Z.land (Z.shiftr val 18) 63) (Z.land (Z.shiftr val 12) 63) 0 0 in
  byte_of_Z (Z.shiftr q 16) = b0.
Proof.
  intros val q. subst q.
  rewrite (byte_of_Z_land _ _ (quantum_byte0 val _ _ (or_intror eq_refl) (or_intror eq_refl))).
  transitivity (byte_of_Z (Z_of_byte b0)); [|apply byte_of_Z_of_byte].
  apply byte_of_Z_land. subst val.
  rewrite (Z_of_byte_land b0), <- (Z.lor_0_r (Z.shiftl _ _)), <- (Z.lor_0_r (Z.lor _ _)).
  rewrite (packed_byte0 _ 0 0 _ _ (or_intror eq_refl) (or_intror eq_refl)).
  rewrite <- Z_of_byte_land. reflexivity.
Qed.

Lemma list_ind3 {A : Type} (P : list A -> Prop) :
  P [] -> (forall a, P [a]) -> (forall a b, P [a; b]) ->
  (forall a b c l, P l -> P (a :: b :: c :: l)) ->
  forall l, P l.
Proof.
  intros H0 H1 H2 H3.
  refine (fix go (l : list A) : P l :=
            match l with
            | [] => H0
            | [a] => H1 a
            | [a; b] => H2 a b
            | a :: b :: c :: l' => H3 a b c l' (go l')
            end).
Qed.

Lemma decodeMap_enc (v : Z) : decodeMap (encodeStd v) = Some (Z.land v 63).
Proof. apply decodeMap_encodeStd. Qed.

Lemma decode_encode_quanta (src : list byte) :
  decode_quanta (encode_quanta src) = inl src.
Proof.
  induction src as [|b0|b0 b1|b0 b1 b2 rest IH] using list_ind3.
  - reflexivity.
  - cbn [encode_quanta decode_quanta]. rewrite !decodeMap_enc.
    change (decodeMap padChar) with (@None Z). cbn [Ascii.eqb andb].
    change (Ascii.eqb padChar padChar) with true. cbn [andb].
    rewrite (group_of_one b0). reflexivity.
  - cbn [encode_quanta decode_quanta]. rewrite !decodeMap_enc.
    change (decodeMap padChar) with (@None Z).
    change (Ascii.eqb padChar padChar) with true. cbv iota.
    destruct (group_of_two b0 b1) as [E0 E1]. rewrite E0, E1. reflexivity.
  - cbn [encode_quanta decode_quanta]. rewrite !decodeMap_enc, IH.
    destruct (group_of_three b0 b1 b2) as (E0 & E1 & E2).
    unfold pack3 in E0, E1, E2. rewrite E0, E1, E2. reflexivity.
Qed.

Lemma encode_quanta_no_newline (src : list byte) :
  filter (fun c => negb (is_newline c)) (encode_quanta src) = encode_quanta src.
Proof.
  induction src as [|b0|b0 b1|b0 b1 b2 rest IH] using list_ind3;
    cbn [encode_quanta filter];
    rewrite ?(proj2 (decodeMap_encodeStd _));
    change (is_newline padChar) with false; cbn [negb];
    rewrite ?IH; reflexivity.
Qed.

Theorem DecodeString_EncodeToString (src : list byte) :
  DecodeString (EncodeToString src) = inl src.
Proof.
  unfold DecodeString, EncodeToString.
  rewrite list_ascii_of_string_of_list_ascii, encode_quanta_no_newline.
  apply decode_encode_quanta.
Qed.


Lemma digit_of_range (c : ascii) (d : Z) : digit_of c = Some d -> 0 <= d <= 9.
Proof.
  unfold digit_of.
  destruct (48 <=? Z.of_N (N_of_ascii c)) eqn:E1; [|discriminate].
  destruct (Z.of_N (N_of_ascii c) <=? 57) eqn:E2; [|discriminate].
  cbn. intro H. injection H as <-. lia.
Qed.

Lemma decimal_ge (s : string) : forall n, 0 <= n -> n <= decimal s n.
Proof.
  induction s as [|c s IH]; intros n Hn; cbn; [lia|].
  destruct (digit_of c) as [d|] eqn:Hd.
  - apply digit_of_range in Hd. etransitivity; [|apply IH]; lia.
  - etransitivity; [|apply IH]; lia.
Qed.

(** The digit loop succeeds exactly on digits that write a number no
    larger than [maxUint64]. *)
Lemma parse_digits_decimal (s : string) :
  forall n v, 0 <= n <= maxUint64 ->
    parse_digits s n = inl v
    <-> all_digits s = true /\ decimal s n = v /\ v <= maxUint64.
Proof.
  induction s as [|c s IH]; intros n v Hn; cbn [parse_digits all_digits decimal].
  - split; [intro H; injection H as <-; split; [reflexivity|split; [reflexivity|apply Hn]]|].
    intros (_ & <- & _). reflexivity.
  - destruct (digit_of c) as [d|] eqn:Hd;
      [|split; [discriminate|intros (H & _); discriminate]].
    pose proof (digit_of_range _ _ Hd) as Hr.
    destruct (cutoff <=? n) eqn:Hc.
    + split; [discriminate|]. intros (_ & Hv & Hm). exfalso.
      apply Z.leb_le in Hc.
      pose proof (decimal_ge s (n * 10 + d) ltac:(lia)) as Hge.
      unfold cutoff, maxUint64 in *.
      change (2 ^ 64 - 1) with 18446744073709551615 in *.
      change (18446744073709551615 / 10 + 1) with 1844674407370955162 in *. lia.
    + destruct (maxUint64 <? n * 10 + d) eqn:Hx.
      * split; [discriminate|]. intros (_ & Hv & Hm). exfalso.
        apply Z.ltb_lt in Hx.
        pose proof (decimal_ge s (n * 10 + d) ltac:(lia)) as Hge. lia.
      * apply Z.ltb_ge in Hx. apply IH. lia.
Qed.

(** [strconv.ParseUint(s, 10, 64)] succeeds exactly on a non-empty string
    of decimal digits that writes a number no larger than [maxUint64], and
    returns that number: a sign, a base prefix, an underscore or a blank
    fails it, leading zeros do not. *)
Lemma ParseUint_decimal (s : string) (v : Z) :
  ParseUint s = inl v
  <-> s <> "" /\ all_digits s = true /\ decimal s 0 = v /\ v <= maxUint64.
Proof.
  unfold ParseUint. destruct s as [|c s].
  - split; [discriminate|]. intros (H & _). contradiction.
  - rewrite parse_digits_decimal by (unfold maxUint64; lia).
    split; [intros H; split; [discriminate|exact H]|intros (_ & H); exact H].
Qed.

End GoFacts.

(** ** The handshake *)

Section Handshake.

Context {schemas : Schemas} {model : BlockModel} {encoder : BlockEncoder} {host : Host}.

Lemma validateVariableChunk_6_7 (params : list string) :
  validateVariableChunk params [6; 7]%nat = None ->
  (exists a b c d e f, params = [a; b; c; d; e; f]) \/
  (exists a b c d e f g, params = [a; b; c; d; e; f; g]).
Proof.
  unfold validateVariableChunk. cbn [existsb]. rewrite orb_false_r.
  destruct params as [|a [|b [|c [|d [|e [|f [|g [|h params]]]]]]]]; cbn;
    try discriminate; intros _.
  - left. do 6 eexists. reflexivity.
  - right. do 7 eexists. reflexivity.
Qed.

Lemma validateVariableChunk_other (params : list string) :
  List.length params <> 6%nat -> List.length params <> 7%nat ->
  validateVariableChunk params [6; 7]%nat
  = Some (FieldsRequiredOneOf [6; 7]%nat (List.length params)).
Proof.
  intros H6 H7. unfold validateVariableChunk. cbn [existsb].
  apply Nat.eqb_neq in H6, H7. rewrite H6, H7. reflexivity.
Qed.

(** [readInit] on six or seven parameters, by the parse of the fourth. *)
Lemma readInit_run (a b c d e f : string) (more : list string) (w : World) :
  (List.length more <= 1)%nat ->
  readInit (a :: b :: c :: d :: e :: f :: more) w =
  match Go.ParseUint d with
  | inr err => Done (Some (InvalidMajorVersion d (NumErr d err))) w
  | inl major =>
      if major =? 0 then Done None (handshaken a b c major major (last more f) w)
      else Done (Some (UnsupportedMajorVersion major)) w
  end.
Proof.
  intro Hlen.
  destruct more as [|g [|h more]]; [| |simpl in Hlen; lia];
    unfold readInit; cbn; unfold bind, ret; cbn;
    destruct (Go.ParseUint d) as [major|err]; try reflexivity;
    destruct (major =? 0); reflexivity.
Qed.

End Handshake.

Section HandshakeProperties.

Context {schemas : Schemas} {model : BlockModel} {encoder : BlockEncoder} {host : Host}.

(** C10.  [readInit] accepts six or seven parameters only: any other count
    is answered by the line-length error of [validateVariableChunk] and
    changes nothing.  When it accepts, the chain identifier it stores is
    the sixth parameter of six and the seventh of seven, the count alone
    deciding.  With six or seven parameters, a fourth parameter (the major
    version) that parses to a number other than 0 always gives the
    major-version error, whatever the fifth parameter (the minor version)
    holds; and a fourth parameter that parses to 0 is accepted. *)
Theorem readInit_parameter_count (params : list string) (w : World) :
  (List.length params <> 6%nat -> List.length params <> 7%nat ->
   readInit params w
   = Done (Some (InvalidLogLineLength
                   (FieldsRequiredOneOf [6; 7]%nat (List.length params)))) w)
  /\ (forall w', readInit params w = Done None w' ->
        (List.length params = 6%nat /\ chainID (reader w') = nth 5 params "")
        \/ (List.length params = 7%nat /\ chainID (reader w') = nth 6 params ""))
  /\ (forall major,
        List.length params = 6%nat \/ List.length params = 7%nat ->
        Go.ParseUint (nth 3 params "") = inl major -> major <> 0 ->
        readInit params w = Done (Some (UnsupportedMajorVersion major)) w)
  /\ (List.length params = 6%nat \/ List.length params = 7%nat ->
      Go.ParseUint (nth 3 params "") = inl 0 ->
      exists w', readInit params w = Done None w'
                 /\ initRead (reader w') = true
                 /\ chainID (reader w') = nth (List.length params - 1) params "").
Proof.
  repeat split.
  - intros H6 H7. unfold readInit.
    rewrite (validateVariableChunk_other _ H6 H7). reflexivity.
  - intros w' H.
    destruct (validateVariableChunk params [6; 7]%nat) as [err|] eqn:V.
    + unfold readInit in H. rewrite V in H. discriminate.
    + destruct (validateVariableChunk_6_7 _ V)
        as [(a & b & c & d & e & f & ->)|(a & b & c & d & e & f & g & ->)].
      * left. split; [reflexivity|].
        rewrite (readInit_run a b c d e f [] w) in H by (simpl; lia).
        destruct (Go.ParseUint d) as [major|]; [|discriminate].
        destruct (major =? 0); [|discriminate].
        injection H as <-. reflexivity.
      * right. split; [reflexivity|].
        rewrite (readInit_run a b c d e f [g] w) in H by (simpl; lia).
        destruct (Go.ParseUint d) as [major|]; [|discriminate].
        destruct (major =? 0); [|discriminate].
        injection H as <-. reflexivity.
  - intros major Hlen Hp Hm.
    destruct params as [|a [|b [|c [|d [|e [|f [|g [|h params]]]]]]]];
      simpl in Hlen; try lia; simpl in Hp.
    + rewrite (readInit_run a b c d e f [] w) by (simpl; lia).
      rewrite Hp. apply Z.eqb_neq in Hm. rewrite Hm. reflexivity.
    + rewrite (readInit_run a b c d e f [g] w) by (simpl; lia).
      rewrite Hp. apply Z.eqb_neq in Hm. rewrite Hm. reflexivity.
  - intros Hlen Hp.
    destruct params as [|a [|b [|c [|d [|e [|f [|g [|h params]]]]]]]];
      simpl in Hlen; try lia; simpl in Hp.
    + rewrite (readInit_run a b c d e f [] w) by (simpl; lia).
      rewrite Hp. eexists. repeat split.
    + rewrite (readInit_run a b c d e f [g] w) by (simpl; lia).
      rewrite Hp. eexists. repeat split.
Qed.

(** [readInit] never looks at its fifth parameter, the minor version: two
    parameter lists that differ only there are read alike. *)
Lemma readInit_ignores_minor (a b c d e e' f : string) (more : list string) (w : World) :
  (List.length more <= 1)%nat ->
  readInit (a :: b :: c :: d :: e :: f :: more) w
  = readInit (a :: b :: c :: d :: e' :: f :: more) w.
Proof.
  intro H. rewrite !readInit_run by exact H. reflexivity.
Qed.

(** C2.  The handshake [sui 1.14.0 mainnet 0 x chain], whose minor version
    [x] is no number, is accepted: the minor version is parsed from the
    fourth parameter, the major version's, and is logged as 0. *)
Theorem readInit_minor_from_major_position (w : World) :
  readInit ["sui"; "1.14.0"; "mainnet"; "0"; "x"; "chain"] w
  = Done None (handshaken "sui" "1.14.0" "mainnet" 0 0 "chain" w)
  /\ Go.ParseUint "x" = inr Go.ErrSyntax.
Proof.
  split; [|reflexivity].
  rewrite (readInit_run _ _ _ _ _ _ [] w) by (simpl; lia). reflexivity.
Qed.

End HandshakeProperties.

(** ** From a line to its handler *)

Section Dispatch.

Context {schemas : Schemas} {model : BlockModel} {encoder : BlockEncoder} {host : Host}.

Local Open Scope go_scope.

(** A line made of the prefix, a command word and one parameter, neither
    with a space in it, is split into these two tokens. *)
Lemma next_line_fire (name p : string) (w : World) :
  Go.has_space name = false -> Go.has_space p = false ->
  next_line (fire name p) w = dispatch (fire name p) [name; p] w.
Proof.
  intros Hn Hp. unfold next_line, fire, LogPrefix. cbn.
  change (String " " p) with (String Go.space p).
  rewrite (GoFacts.Split_app name p Hn), (GoFacts.Split_no_space p Hp).
  reflexivity.
Qed.

(** After the handshake, [dispatch] is the switch on the command word. *)
Lemma dispatch_CHECKPOINT (line : string) (params : list string) (w : World) :
  initRead (reader w) = true ->
  dispatch line (LogCheckpoint :: params) w
  = (err <- readCheckpointOverview params ;; ret (after_switch line err)) w.
Proof. intro H. unfold dispatch, bind at 1 2. cbn. rewrite H. reflexivity. Qed.

Lemma dispatch_TRX (line : string) (params : list string) (w : World) :
  initRead (reader w) = true ->
  dispatch line (LogTrx :: params) w
  = (err <- readTransactionBlock params ;; ret (after_switch line err)) w.
Proof. intro H. unfold dispatch, bind at 1 2. cbn. rewrite H. reflexivity. Qed.

Lemma dispatch_OBJ_CHANGE (line : string) (params : list string) (w : World) :
  initRead (reader w) = true ->
  dispatch line (LogObjChange :: params) w
  = (err <- readTransactionObjectChange params ;; ret (after_switch line err)) w.
Proof. intro H. unfold dispatch, bind at 1 2. cbn. rewrite H. reflexivity. Qed.

Lemma dispatch_EVT (line : string) (params : list string) (w : World) :
  initRead (reader w) = true ->
  dispatch line (LogEvent :: params) w
  = (err <- readEvent params ;; ret (after_switch line err)) w.
Proof. intro H. unfold dispatch, bind at 1 2. cbn. rewrite H. reflexivity. Qed.

Lemma dispatch_DSP_UPDATE (line : string) (params : list string) (w : World) :
  initRead (reader w) = true ->
  dispatch line (LogDisplayUpdate :: params) w
  = (err <- readDisplayUpdate params ;; ret (after_switch line err)) w.
Proof. intro H. unfold dispatch, bind at 1 2. cbn. rewrite H. reflexivity. Qed.

Lemma dispatch_BLOCK_START (line : string) (params : list string) (w : World) :
  initRead (reader w) = true ->
  dispatch line (LogBlockStart :: params) w
  = (err <- readBlockStart params ;; ret (after_switch line err)) w.
Proof. intro H. unfold dispatch, bind at 1 2. cbn. rewrite H. reflexivity. Qed.

Lemma dispatch_BLOCK_END (line : string) (params : list string) (w : World) :
  initRead (reader w) = true ->
  dispatch line (LogBlockEnd :: params) w
  = ('(block, err) <- readBlockEnd params ;;
     match err with
     | Some e => ret (Return None (Some (lineError line e)))
     | None => ret (Return (Some block) None)
     end) w.
Proof. intro H. unfold dispatch, bind at 1 2. cbn. rewrite H. reflexivity. Qed.


(** [next] receives the first line, runs the loop body on it, and goes on
    or returns. *)
Lemma next_cons (line : string) (rest : list string) (w : World) :
  next (with_lines (line :: rest) w)
  = match next_line line (with_lines rest w) with
    | Done Continue w' => next_from rest w'
    | Done (Return out err) w' => Done (out, err) w'
    | Panic c => Panic c
    end.
Proof.
  unfold next. cbn [lines with_lines next_from]. unfold bind, received.
  change (with_lines rest _) with (with_lines rest w).
  destruct (next_line line (with_lines rest w)) as [[|out err] w'|c]; reflexivity.
Qed.

End Dispatch.

(** ** The accumulator *)

Section Accumulator.

Context {schemas : Schemas} {model : BlockModel} {encoder : BlockEncoder} {host : Host}.

Lemma encoded_app (t t' : list Event) : encoded (t ++ t') = (encoded t ++ encoded t')%list.
Proof.
  induction t as [|[entry|enveloppe r] t IH]; simpl; [reflexivity|exact IH|].
  rewrite IH. reflexivity.
Qed.

Lemma logged_app (t t' : list Event) : logged (t ++ t') = (logged t ++ logged t')%list.
Proof.
  induction t as [|[entry|enveloppe r] t IH]; simpl; [reflexivity| |exact IH].
  rewrite IH. reflexivity.
Qed.

(** [readBlockStart] on one parameter, case by case. *)
Lemma readBlockStart_run (p : string) (w : World) :
  readBlockStart [p] w =
  match Go.ParseUint p with
  | inr err => Done (Some (InvalidBlockStartHeight (NumErr p err))) w
  | inl height =>
      match activeBlock (reader w) with
      | None => Done None (started w)
      | Some b =>
          match Checkpoint b with
          | Some c =>
              Done None
                (started (with_event
                            (Logged (BlockStartWhileActive (SequenceNumber c) height)) w))
          | None => Panic NilDereference
          end
      end
  end.
Proof.
  unfold readBlockStart. cbn. unfold bind, ret. cbn.
  destruct (Go.ParseUint p) as [height|err]; [|reflexivity].
  cbn. destruct (activeBlock (reader w)) as [b|]; [|reflexivity].
  destruct (Checkpoint b); reflexivity.
Qed.


(** A [BLOCK_START] over an accumulator that holds no checkpoint yet
    dereferences the nil [Checkpoint] for its log entry. *)
Lemma readBlockStart_without_checkpoint (p : string) (h : Z) (b : CheckpointData)
    (w : World) :
  Go.ParseUint p = inl h ->
  activeBlock (reader w) = Some b -> Checkpoint b = None ->
  readBlockStart [p] w = Panic NilDereference.
Proof.
  intros Hp Hb Hc. rewrite readBlockStart_run, Hp, Hb, Hc. reflexivity.
Qed.

(** [validate] on one parameter, case by case. *)
Lemma validate_run (p valueType : string) (w : World) :
  validate [p] valueType w =
  match activeBlock (reader w) with
  | None => Done ([], Some (NoActiveBlock valueType)) w
  | Some b =>
      match Go.DecodeString p with
      | inr err =>
          Done ([], Some (InvalidBase64 valueType (GetFirehoseBlockNumber b)
                            (CorruptInputErr err))) w
      | inl out => Done (out, None) w
      end
  end.
Proof.
  unfold validate. cbn. unfold bind, get. cbn.
  destruct (activeBlock (reader w)) as [b|]; [|reflexivity].
  cbn. destruct (Go.DecodeString p); reflexivity.
Qed.

(** Runs a handler that starts with [validate]: the cases of [validate],
    then of [Unmarshal]. *)
Ltac run_handler p w :=
  let b := fresh "b" in
  let Hb := fresh "Hb" in
  let out := fresh "out" in
  let Hd := fresh "Hd" in
  let Hu := fresh "Hu" in
  destruct (activeBlock (reader w)) as [b|] eqn:Hb;
  [ destruct (Go.DecodeString p) as [out|] eqn:Hd;
    [ destruct (Unmarshal out) eqn:Hu | ] | ];
  unfold bind at 1; rewrite validate_run, Hb, ?Hd;
  try reflexivity;
  cbn; rewrite Hu; unfold bind, theActiveBlock, store, get, put, ret; cbn;
  rewrite Hb; reflexivity.

Lemma readCheckpointOverview_accumulates :
  accumulates readCheckpointOverview "CHECKPOINT" set_Checkpoint.
Proof. unfold accumulates, readCheckpointOverview. intros p w. run_handler p w. Qed.

Lemma readTransactionBlock_accumulates :
  accumulates readTransactionBlock "TRX"
    (fun transaction b => set_Transactions (Transactions b ++ [transaction]) b).
Proof. unfold accumulates, readTransactionBlock. intros p w. run_handler p w. Qed.

Lemma readTransactionObjectChange_accumulates :
  accumulates readTransactionObjectChange "OBJ_CHANGE" set_ObjectChange.
Proof. unfold accumulates, readTransactionObjectChange. intros p w. run_handler p w. Qed.

Lemma readEvent_accumulates :
  accumulates readEvent "EVT" (fun event b => set_Events (Events b ++ [event]) b).
Proof. unfold accumulates, readEvent. intros p w. run_handler p w. Qed.

Lemma readDisplayUpdate_accumulates :
  accumulates readDisplayUpdate "DSP_UPDATE"
    (fun display_update b =>
       set_DisplayUpdates (DisplayUpdates b ++ [display_update]) b).
Proof. unfold accumulates, readDisplayUpdate. intros p w. run_handler p w. Qed.


End Accumulator.

(** ** The end of a block *)

Section BlockEnd.

Context {schemas : Schemas} {model : BlockModel} {encoder : BlockEncoder} {host : Host}.

Local Open Scope go_scope.

(** [readBlockEnd] on one parameter, case by case, in the order of its
    checks. *)
Lemma readBlockEnd_run (p : string) (w : World) :
  readBlockEnd [p] w =
  match Go.ParseUint p with
  | inr err => Done (None, Some (InvalidBlockEndHeight (NumErr p err))) w
  | inl height =>
      match activeBlock (reader w) with
      | None => Done (None, Some (NoActiveBlock "BLOCK_END")) w
      | Some b =>
          if negb (GetFirehoseBlockNumber b =? height) then
            Done (None, Some (HeightMismatch (GetFirehoseBlockNumber b) height)) w
          else if (List.length (Transactions b) =? 0)%nat then
            Done (None, Some (EmptyBlock (GetFirehoseBlockNumber b))) w
          else Done (encoded_result (Encode (enveloppe_of b))) (finished b w)
      end
  end.
Proof.
  unfold readBlockEnd. cbn. unfold bind at 1. cbn.
  destruct (Go.ParseUint p) as [height|err]; [|reflexivity].
  unfold bind at 1. cbn.
  destruct (activeBlock (reader w)) as [b|] eqn:Hb; [|reflexivity].
  destruct (negb (GetFirehoseBlockNumber b =? height)); [reflexivity|].
  destruct (List.length (Transactions b) =? 0)%nat; [reflexivity|].
  unfold bind, resetActiveBlock, callEncode, log, emit, get, put, ret. cbn.
  unfold encoded_result, finished, enveloppe_of.
  destruct (Encode _) as [blk [e|]]; reflexivity.
Qed.

(** Completing a block adds exactly its enveloppe to those encoded. *)
Lemma encoded_finished (b : CheckpointData) (w : World) :
  encoded (trace (finished b w)) = (encoded (trace w) ++ [enveloppe_of b])%list.
Proof.
  unfold finished. cbn. rewrite !encoded_app. cbn. rewrite app_nil_r. reflexivity.
Qed.

(** After the handshake, [next]'s loop body on a [BLOCK_END] line returns
    what [readBlockEnd] returns, an error wrapped with the line. *)
Lemma next_line_BLOCK_END (p : string) (h : Z) (w : World) :
  initRead (reader w) = true -> Go.ParseUint p = inl h ->
  next_line (fire LogBlockEnd p) w
  = match readBlockEnd [p] w with
    | Done (block, Some e) w' =>
        Done (Return None (Some (LineError e (fire LogBlockEnd p)))) w'
    | Done (block, None) w' => Done (Return (Some block) None) w'
    | Panic c => Panic c
    end.
Proof.
  intros Hi Hp.
  rewrite next_line_fire by
    (try reflexivity; exact (GoFacts.ParseUint_no_space _ _ Hp)).
  rewrite dispatch_BLOCK_END by exact Hi.
  unfold bind. destruct (readBlockEnd [p] w) as [[block [e|]] w'|c]; reflexivity.
Qed.

(** [ReadBlock] when the channel's next line is a [BLOCK_END]. *)
Lemma ReadBlock_BLOCK_END (p : string) (h : Z) (rest : list string) (w : World) :
  initRead (reader w) = true -> Go.ParseUint p = inl h ->
  ReadBlock (with_lines (fire LogBlockEnd p :: rest) w)
  = match readBlockEnd [p] (with_lines rest w) with
    | Done (block, Some e) w' => Done (None, Some (LineError e (fire LogBlockEnd p))) w'
    | Done (block, None) w' => Done (block, None) w'
    | Panic c => Panic c
    end.
Proof.
  intros Hi Hp. unfold ReadBlock, bind. rewrite next_cons.
  rewrite (next_line_BLOCK_END p h) by assumption.
  destruct (readBlockEnd [p] (with_lines rest w)) as [[block [e|]] w'|c]; reflexivity.
Qed.

Lemma app_one_neq {A : Type} (l : list A) (x : A) : l = (l ++ [x])%list -> False.
Proof.
  intro H. apply (f_equal (@List.length A)) in H.
  rewrite length_app in H. simpl in H. lia.
Qed.

(** Clears the cases of a statement about the active block that the
    hypotheses contradict. *)
Ltac settle_block :=
  repeat match goal with
         | H : Some _ = Some _ |- _ => injection H as H; subst
         | H : Some _ = None |- _ => discriminate H
         | H : None = Some _ |- _ => discriminate H
         | H : exists _, _ |- _ => destruct H
         | H : _ /\ _ |- _ => destruct H
         end;
  try congruence; try contradiction; try (split; congruence).

(** C5.  A [BLOCK_END] with a height [h] never panics, and it hands a
    completed block to the encoder if and only if a block is active, the
    height the block reports is [h] and it holds a transaction.  Without
    an active block it fails with the no-active-block error; with a block
    of another height, with the height-mismatch error; with a block of
    height [h] and no transaction, with the empty-block error; and none of
    these changes anything.  Any error of [readBlockEnd] comes out of
    [ReadBlock] wrapped with the line that was read. *)
Theorem readBlockEnd_completes_iff (p : string) (h : Z) (w : World) :
  Go.ParseUint p = inl h ->
  (exists out w',
     readBlockEnd [p] w = Done out w'
     /\ ((exists b, activeBlock (reader w) = Some b
                    /\ GetFirehoseBlockNumber b = h /\ Transactions b <> [])
         <-> (exists enveloppe,
                encoded (trace w') = (encoded (trace w) ++ [enveloppe])%list))
     /\ (activeBlock (reader w) = None ->
         out = (None, Some (NoActiveBlock "BLOCK_END")) /\ w' = w)
     /\ (forall b, activeBlock (reader w) = Some b -> GetFirehoseBlockNumber b <> h ->
                   out = (None, Some (HeightMismatch (GetFirehoseBlockNumber b) h))
                   /\ w' = w)
     /\ (forall b, activeBlock (reader w) = Some b -> GetFirehoseBlockNumber b = h ->
                   Transactions b = [] ->
                   out = (None, Some (EmptyBlock h)) /\ w' = w)
     /\ (forall b, activeBlock (reader w) = Some b -> GetFirehoseBlockNumber b = h ->
                   Transactions b <> [] ->
                   out = encoded_result (Encode (enveloppe_of b))
                   /\ w' = finished b w))
  /\ (forall rest block e w',
        initRead (reader w) = true ->
        readBlockEnd [p] (with_lines rest w) = Done (block, Some e) w' ->
        ReadBlock (with_lines (fire LogBlockEnd p :: rest) w)
        = Done (None, Some (LineError e (fire LogBlockEnd p))) w').
Proof.
  intro Hp. split.
  - rewrite readBlockEnd_run, Hp.
    destruct (activeBlock (reader w)) as [b|] eqn:Hb;
      [destruct (GetFirehoseBlockNumber b =? h) eqn:Hh; cbn [negb];
       [apply Z.eqb_eq in Hh; destruct (Transactions b) as [|t ts] eqn:Ht; cbn
       |apply Z.eqb_neq in Hh]|];
      (do 2 eexists; split; [reflexivity|]);
      (split; [split; intro H
              |split; [intro H
                      |split; [intros b' H H1
                              |split; intros b' H H1 H2]]]);
      settle_block.
    all: first [ exfalso; eapply app_one_neq; eassumption
               | eexists; apply encoded_finished
               | eexists; repeat split; try reflexivity; congruence ].
  - intros rest block e w' Hi Hr.
    rewrite (ReadBlock_BLOCK_END p h) by assumption.
    rewrite Hr. reflexivity.
Qed.

End BlockEnd.

Section BlockEndOrder.

Context {schemas : Schemas} {model : BlockModel} {encoder : BlockEncoder} {host : Host}.

(** C7, as the code has it.  On a [BLOCK_END] whose checks all pass, the
    reader counts the block (one more block, as many more transactions as
    the block holds, the start time of the block given to the parse-time
    average, the block's reference as last block), logs its summary and
    clears the accumulator and its start time, and only then calls the
    encoder: the reader the encoder is called beside is already the final
    one.  [readBlockEnd] returns the encoder's error as it is; [ReadBlock]
    returns it wrapped with the line, as it does every error of
    [readBlockEnd], the accumulator cleared and the block counted. *)
Theorem readBlockEnd_counts_clears_then_encodes
    (p : string) (h : Z) (b : CheckpointData) (w : World) :
  Go.ParseUint p = inl h ->
  activeBlock (reader w) = Some b ->
  GetFirehoseBlockNumber b = h ->
  Transactions b <> [] ->
  let r := reader w in
  let r' := finished_reader b r in
  readBlockEnd [p] w = Done (encoded_result (Encode (enveloppe_of b))) (finished b w)
  /\ reader (finished b w) = r'
  /\ trace (finished b w)
     = (trace w ++ [Logged (NodeBlock (GetFirehoseBlockID b) (GetFirehoseBlockNumber b)
                              (GetFirehoseBlockTime b));
                    Encoded (enveloppe_of b) r'])%list
  /\ activeBlock r' = None
  /\ activeBlockStartTime r' = 0
  /\ stats r'
     = {| lastBlock := AsRef b;
          blockRate := blockRate (stats r) + 1;
          blockAverageParseTime :=
            activeBlockStartTime r :: blockAverageParseTime (stats r);
          transactionRate :=
            transactionRate (stats r) + Z.of_nat (List.length (Transactions b)) |}
  /\ (forall bstreamBlock e,
        Encode (enveloppe_of b) = (bstreamBlock, Some e) ->
        readBlockEnd [p] w = Done (None, Some e) (finished b w)
        /\ forall rest,
             initRead r = true ->
             ReadBlock (with_lines (fire LogBlockEnd p :: rest) w)
             = Done (None, Some (LineError e (fire LogBlockEnd p)))
                 (finished b (with_lines rest w))).
Proof.
  intros Hp Hb Hh Ht r r'.
  assert (Hrun : forall w0, activeBlock (reader w0) = Some b ->
            readBlockEnd [p] w0
            = Done (encoded_result (Encode (enveloppe_of b))) (finished b w0)).
  { intros w0 Hb0. rewrite readBlockEnd_run, Hp, Hb0.
    apply Z.eqb_eq in Hh. rewrite Hh. cbn [negb].
    destruct (Transactions b); [contradiction|reflexivity]. }
  split; [exact (Hrun w Hb)|].
  split; [reflexivity|].
  split; [unfold finished; cbn; rewrite <- app_assoc; reflexivity|].
  do 3 (split; [reflexivity|]).
  intros bstreamBlock e He. split.
  - rewrite (Hrun w Hb), He. reflexivity.
  - intros rest Hi. rewrite (ReadBlock_BLOCK_END p h) by assumption.
    rewrite (Hrun (with_lines rest w) Hb), He. reflexivity.
Qed.

End BlockEndOrder.

(** ** The loop of [next] *)

Section Stream.

Context {schemas : Schemas} {model : BlockModel} {encoder : BlockEncoder} {host : Host}.

Local Open Scope go_scope.

Lemma next_from_cons (line : string) (rest : list string) (w : World) :
  next_from (line :: rest) w
  = match next_line line (with_lines rest w) with
    | Done Continue w' => next_from rest w'
    | Done (Return out err) w' => Done (out, err) w'
    | Panic c => Panic c
    end.
Proof.
  cbn [next_from]. unfold bind, received.
  destruct (next_line line (with_lines rest w)) as [[|out err] w'|c]; reflexivity.
Qed.

(** A line without the prefix is passed over: no error, no change. *)
Lemma next_line_unprefixed (line : string) (w : World) :
  Go.HasPrefix line LogPrefix = false -> next_line line w = Done Continue w.
Proof. intro H. unfold next_line. rewrite H. reflexivity. Qed.

(** A line with the prefix whose fifth byte on holds no space has fewer
    than two tokens and fails [next]. *)
Lemma next_line_one_token (line rest : string) (w : World) :
  Go.HasPrefix line LogPrefix = true ->
  Go.slice_from (String.length LogPrefix + 1) line = Some rest ->
  Go.has_space rest = false ->
  next_line line w = Done (Return None (Some (InvalidLogLine line))) w.
Proof.
  intros Hp Hs Hn. unfold next_line. rewrite Hp, Hs. cbn [negb].
  rewrite GoFacts.Split_length_lt_2, Hn. reflexivity.
Qed.

(** A line with a command word and parameters goes to [dispatch]. *)
Lemma next_line_command (line name : string) (params : list string) (w : World) :
  command_of line = Some (name, params) ->
  next_line line w = dispatch line (name :: params) w.
Proof.
  unfold command_of, next_line.
  destruct (Go.HasPrefix line LogPrefix); [|discriminate]. cbn [negb].
  destruct (Go.slice_from (String.length LogPrefix + 1) line) as [rest|]; [|discriminate].
  destruct (Go.Split rest) as [|name' [|p ps]]; try discriminate.
  intro H. injection H as -> <-. reflexivity.
Qed.







(** Only the loop itself receives from the channel: the loop body and
    the handlers leave it as it is. *)
Lemma keeps_ret {A : Type} (a : A) : keeps_lines (ret a).
Proof. intros w a' w' H. injection H as _ <-. reflexivity. Qed.

Lemma keeps_panic {A : Type} (c : panic_cause) : keeps_lines (panic (A := A) c).
Proof. intros w a w' H. discriminate. Qed.

Lemma keeps_bind {A B : Type} (m : M A) (k : A -> M B) :
  keeps_lines m -> (forall a, keeps_lines (k a)) -> keeps_lines (bind m k).
Proof.
  intros Hm Hk w b w' H. unfold bind in H.
  destruct (m w) as [a w1|c] eqn:E; [|discriminate].
  rewrite (Hk a _ _ _ H). exact (Hm _ _ _ E).
Qed.

Lemma keeps_get : keeps_lines get.
Proof. intros w a w' H. injection H as _ <-. reflexivity. Qed.

Lemma keeps_put (r : ConsoleReader) : keeps_lines (put r).
Proof. intros w a w' H. injection H as _ <-. reflexivity. Qed.

Lemma keeps_log (entry : LogEntry) : keeps_lines (log entry).
Proof. intros w a w' H. injection H as _ <-. reflexivity. Qed.

Lemma keeps_emit (e : Event) : keeps_lines (emit e).
Proof. intros w a w' H. injection H as _ <-. reflexivity. Qed.

Lemma keeps_Now : keeps_lines Now.
Proof. intros w a w' H. injection H as _ <-. reflexivity. Qed.

Lemma keeps_index (params : list string) (i : nat) : keeps_lines (index params i).
Proof.
  unfold index. destruct (nth_error params i); [apply keeps_ret|apply keeps_panic].
Qed.

Create HintDb keeps discriminated.
#[local] Hint Resolve keeps_ret keeps_panic keeps_get keeps_put keeps_log keeps_emit
  keeps_Now keeps_index : keeps.

(** Goes through a computation, bind by bind and case by case. *)
Ltac keeps :=
  repeat first
    [ solve [auto with keeps]
    | apply keeps_bind; [|intro]
    | match goal with
      | |- keeps_lines (match ?x with _ => _ end) => destruct x
      | |- keeps_lines (if ?b then _ else _) => destruct b
      end ].

Lemma keeps_readInit (params : list string) : keeps_lines (readInit params).
Proof. unfold readInit. keeps. Qed.

Lemma keeps_readBlockStart (params : list string) : keeps_lines (readBlockStart params).
Proof. unfold readBlockStart. keeps. Qed.

Lemma keeps_validate (params : list string) (valueType : string) :
  keeps_lines (validate params valueType).
Proof. unfold validate. keeps. Qed.

Lemma keeps_theActiveBlock : keeps_lines theActiveBlock.
Proof. unfold theActiveBlock. keeps. Qed.

Lemma keeps_store (b : CheckpointData) : keeps_lines (store b).
Proof. unfold store. keeps. Qed.

#[local] Hint Resolve keeps_readInit keeps_readBlockStart keeps_validate
  keeps_theActiveBlock keeps_store : keeps.

Lemma keeps_readCheckpointOverview (params : list string) :
  keeps_lines (readCheckpointOverview params).
Proof. unfold readCheckpointOverview. keeps. Qed.

Lemma keeps_readTransactionBlock (params : list string) :
  keeps_lines (readTransactionBlock params).
Proof. unfold readTransactionBlock. keeps. Qed.

Lemma keeps_readTransactionObjectChange (params : list string) :
  keeps_lines (readTransactionObjectChange params).
Proof. unfold readTransactionObjectChange. keeps. Qed.

Lemma keeps_readEvent (params : list string) : keeps_lines (readEvent params).
Proof. unfold readEvent. keeps. Qed.

Lemma keeps_readDisplayUpdate (params : list string) :
  keeps_lines (readDisplayUpdate params).
Proof. unfold readDisplayUpdate. keeps. Qed.

Lemma keeps_readBlockEnd (params : list string) : keeps_lines (readBlockEnd params).
Proof. unfold readBlockEnd, resetActiveBlock, callEncode. keeps. Qed.

#[local] Hint Resolve keeps_readCheckpointOverview keeps_readTransactionBlock
  keeps_readTransactionObjectChange keeps_readEvent keeps_readDisplayUpdate
  keeps_readBlockEnd : keeps.

Lemma keeps_next_line (line : string) : keeps_lines (next_line line).
Proof. unfold next_line, dispatch. keeps. Qed.

Lemma next_line_lines (line : string) (w w' : World) (t : Turn) :
  next_line line w = Done t w' -> lines w' = lines w.
Proof. apply keeps_next_line. Qed.

(** Whatever error the loop body returns for a line is the too-few-tokens
    error for that line or an error wrapped with that line: never a bare
    [io.EOF]. *)
Lemma next_line_error (line : string) (w w' : World)
    (out : option (option pbbstream_Block)) (e : error) :
  next_line line w = Done (Return out (Some e)) w' ->
  e = InvalidLogLine line \/ exists source, e = LineError source line.
Proof.
  unfold next_line.
  destruct (negb (Go.HasPrefix line LogPrefix)); [discriminate|].
  destruct (Go.slice_from (String.length LogPrefix + 1) line) as [after|];
    [|discriminate].
  cbv zeta.
  destruct (List.length (Go.Split after) <? 2)%nat.
  { intro H. injection H as _ <- _. left. reflexivity. }
  unfold dispatch, index.
  destruct (nth_error (Go.Split after) 0) as [tokens0|]; [|discriminate].
  unfold bind at 1 2, ret at 1, get. cbv beta iota.
  destruct (negb (initRead (reader w))).
  { destruct (tokens0 =? LogInit)%string.
    - unfold bind. destruct (readInit _ w) as [[e'|] w1|c]; try discriminate.
      intro H. injection H as _ <- _. right. eexists. reflexivity.
    - discriminate. }
  repeat match goal with
         | |- (if (tokens0 =? ?c)%string then _ else _) w = _ -> _ =>
             destruct (tokens0 =? c)%string
         end;
    unfold bind;
    try match goal with
        | |- match ?handler w with _ => _ end = _ -> _ =>
            destruct (handler w) as [[e'|] w1|c]
        end;
    try discriminate;
    try (intro H; injection H as _ <- _; right; eexists; reflexivity).
  - destruct (readBlockEnd (tl (Go.Split after)) w) as [[block [e'|]] w1|c];
      try discriminate.
    intro H. injection H as _ <- _. right. eexists. reflexivity.
  - destruct DebugEnabled; discriminate.
Qed.

(** The loop returns a bare [io.EOF] only from the closed channel. *)
Lemma next_from_EOF (ls : list string) :
  forall (w w' : World) (out : option (option pbbstream_Block)),
    lines w = ls ->
    next_from ls w = Done (out, Some EOF) w' ->
    lines w' = [] /\ exists w0, w' = with_event (Logged ChannelClosed) w0.
Proof.
  induction ls as [|line rest IH]; intros w w' out Hls H.
  - cbn in H. injection H as _ <-. split; [exact Hls|]. exists w. reflexivity.
  - rewrite next_from_cons in H.
    destruct (next_line line (with_lines rest w)) as [[|out1 [e|]] w1|c] eqn:Hl;
      try discriminate.
    + apply (IH w1 w' out); [|exact H].
      exact (next_line_lines _ _ _ _ Hl).
    + injection H as _ -> _.
      destruct (next_line_error _ _ _ _ _ Hl) as [He|[source He]]; discriminate.
Qed.

(** C3, as the code has it.  When the channel is closed and empty,
    [ReadBlock] logs it and returns [io.EOF] whatever the reader holds: an
    accumulator in progress stays where it is and no other error is
    made.  And a bare [io.EOF] is returned in no other case: the last
    thing the reader did was to log the closed channel, and no line is
    left. *)
Theorem ReadBlock_channel_closed (w : World) :
  (ReadBlock (with_lines [] w)
   = Done (None, Some EOF) (with_event (Logged ChannelClosed) (with_lines [] w))
   /\ reader (with_event (Logged ChannelClosed) (with_lines [] w)) = reader w)
  /\ (forall out w',
        ReadBlock w = Done (out, Some EOF) w' ->
        lines w' = [] /\ exists w0, w' = with_event (Logged ChannelClosed) w0).
Proof.
  split; [split; reflexivity|].
  intros out w' H. unfold ReadBlock, bind, next in H.
  destruct (next_from (lines w) w) as [[out1 [e|]] w1|c] eqn:Hn; try discriminate.
  - injection H as _ -> <-.
    exact (next_from_EOF _ _ _ _ eq_refl Hn).
  - destruct out1; discriminate.
Qed.

(** C6.  The line [FIRE], the prefix alone, makes [next] slice past the
    end of the line, a run-time panic; the line [FIREBALL], which starts
    with the prefix but not with the prefix and a space, fails [next] with
    the too-few-tokens error. *)
Theorem next_line_prefix_without_space (w : World) :
  next_line "FIRE" w = Panic SliceOutOfRange
  /\ next_line "FIREBALL" w = Done (Return None (Some (InvalidLogLine "FIREBALL"))) w.
Proof. split; reflexivity. Qed.

End Stream.

(** ** A block from start to end *)

Section WholeBlock.

Context {schemas : Schemas} {model : BlockModel} {encoder : BlockEncoder} {host : Host}.

Local Open Scope go_scope.

(** After the handshake and with no block active, a [BLOCK_START] line
    starts one and the loop goes on. *)
Lemma next_line_BLOCK_START (p : string) (h : Z) (w : World) :
  initRead (reader w) = true -> activeBlock (reader w) = None ->
  Go.ParseUint p = inl h ->
  next_line (fire LogBlockStart p) w = Done Continue (started w).
Proof.
  intros Hi Hn Hp.
  rewrite next_line_fire by
    (try reflexivity; exact (GoFacts.ParseUint_no_space _ _ Hp)).
  rewrite dispatch_BLOCK_START by exact Hi.
  unfold bind. rewrite readBlockStart_run, Hp, Hn. reflexivity.
Qed.




End WholeBlock.

(** ** A second start *)

Section SecondStart.

Context {schemas : Schemas} {model : BlockModel} {encoder : BlockEncoder} {host : Host}.

(** C4.  A handshake, [BLOCK_START 1] and then [BLOCK_START 2]: the second
    start finds the accumulator of the first, which holds no checkpoint
    yet, reads [Checkpoint.SequenceNumber] through the nil pointer for its
    log entry, and [ReadBlock] panics; no accumulator is started for
    height 2. *)
Theorem second_BLOCK_START_panics :
  ReadBlock (fresh [init_line; "FIRE BLOCK_START 1"; "FIRE BLOCK_START 2"])
  = Panic NilDereference.
Proof. reflexivity. Qed.

End SecondStart.

(** ** Further properties of the loop *)

Section Further.

Context {schemas : Schemas} {model : BlockModel} {encoder : BlockEncoder} {host : Host}.

(** X1.  A line that does not start with [FIRE] is passed over without
    error and without any change: [ReadBlock] goes on with the following
    line as if the line had not been there. *)
Theorem unprefixed_line_passed_over (line : string) (rest : list string) (w : World) :
  Go.HasPrefix line LogPrefix = false ->
  next_line line w = Done Continue w
  /\ ReadBlock (with_lines (line :: rest) w) = ReadBlock (with_lines rest w).
Proof.
  intro H. split; [exact (next_line_unprefixed line w H)|].
  unfold ReadBlock, bind. rewrite next_cons, (next_line_unprefixed _ _ H).
  destruct rest as [|line' rest']; reflexivity.
Qed.

(** X2.  A line that starts with [FIRE] and whose text after the fifth
    byte holds no space, such as a bare [FIRE ] or a command without
    parameter, fails [ReadBlock] with the too-few-tokens error that quotes
    the line; the reader is left unchanged. *)
Theorem one_token_line_fails (line after : string) (rest : list string) (w : World) :
  Go.HasPrefix line LogPrefix = true ->
  Go.slice_from (String.length LogPrefix + 1) line = Some after ->
  Go.has_space after = false ->
  ReadBlock (with_lines (line :: rest) w)
  = Done (None, Some (InvalidLogLine line)) (with_lines rest w).
Proof.
  intros Hp Hs Hn. unfold ReadBlock, bind.
  rewrite next_cons, (next_line_one_token line after _ Hp Hs Hn). reflexivity.
Qed.



(** X5.  A [BLOCK_START] over an accumulator that already holds a
    checkpoint is no error: it logs the previous and the new height at
    info level, reads the clock, and replaces the accumulator by an empty
    one, so that nothing accumulated so far is kept. *)
Theorem BLOCK_START_over_checkpoint (p : string) (h : Z) (b : CheckpointData)
    (c : pbsui_Checkpoint) (w : World) :
  Go.ParseUint p = inl h ->
  activeBlock (reader w) = Some b -> Checkpoint b = Some c ->
  readBlockStart [p] w
  = Done None
      (started (with_event (Logged (BlockStartWhileActive (SequenceNumber c) h)) w))
  /\ level_of (BlockStartWhileActive (SequenceNumber c) h) = InfoLevel
  /\ activeBlock
       (reader (started (with_event
                           (Logged (BlockStartWhileActive (SequenceNumber c) h)) w)))
     = Some emptyCheckpointData.
Proof.
  intros Hp Hb Hc. rewrite readBlockStart_run, Hp, Hb, Hc. repeat split.
Qed.

(** X6.  The outcome of [readInit] never depends on its fifth parameter,
    the minor version: two handshakes that differ only there are read
    alike. *)
Theorem readInit_minor_unread (a b c d e e' f : string) (more : list string) (w : World) :
  (List.length more <= 1)%nat ->
  readInit (a :: b :: c :: d :: e :: f :: more) w
  = readInit (a :: b :: c :: d :: e' :: f :: more) w.
Proof. exact (readInit_ignores_minor a b c d e e' f more w). Qed.

(** X7.  Within a block, [validate] returns exactly the bytes whose
    standard base64 text it is given, whatever the bytes, and changes
    nothing. *)
Theorem validate_decodes_encoded (src : list byte) (valueType : string)
    (b : CheckpointData) (w : World) :
  activeBlock (reader w) = Some b ->
  validate [Go.EncodeToString src] valueType w = Done (src, None) w.
Proof.
  intro Hb.
  rewrite validate_run, Hb, GoFacts.DecodeString_EncodeToString. reflexivity.
Qed.

End Further.

(** ** Every turn of the loop *)

Section Turns.

Context {schemas : Schemas} {model : BlockModel} {encoder : BlockEncoder} {host : Host}.

Local Open Scope go_scope.

Lemma validateChunk_one (params : list string) :
  validateChunk params 1 = None -> exists p, params = [p].
Proof.
  unfold validateChunk. destruct params as [|p [|q params]]; try discriminate.
  intros _. exists p. reflexivity.
Qed.

Lemma validateChunk_other (params : list string) :
  List.length params <> 1%nat ->
  validateChunk params 1 = Some (FieldsRequired 1 (List.length params)).
Proof.
  intro H. unfold validateChunk. apply Nat.eqb_neq in H. rewrite H. reflexivity.
Qed.

(** [validate] checks the number of parameters first. *)
Lemma validate_other (params : list string) (valueType : string) (w : World) :
  List.length params <> 1%nat ->
  validate params valueType w
  = Done ([], Some (InvalidLogLineLength (FieldsRequired 1 (List.length params)))) w.
Proof. intro H. unfold validate. rewrite (validateChunk_other _ H). reflexivity. Qed.

Lemma prefix_cons (a b : ascii) (p s : string) :
  String.prefix (String a p) (String b s) = true -> a = b /\ String.prefix p s = true.
Proof.
  change (String.prefix (String a p) (String b s))
    with (if ascii_dec a b then String.prefix p s else false).
  destruct (ascii_dec a b); [intro H; split; assumption|discriminate].
Qed.

(** The prefix alone is the one line [next] cannot slice. *)
Lemma prefix_unsliced (line : string) :
  Go.HasPrefix line LogPrefix = true ->
  Go.slice_from (String.length LogPrefix + 1) line = None -> line = LogPrefix.
Proof.
  unfold Go.HasPrefix, LogPrefix. intros Hp Hs.
  destruct line as [|c1 [|c2 [|c3 [|c4 [|c5 line]]]]];
    try discriminate Hs;
    repeat (apply prefix_cons in Hp; destruct Hp as [<- Hp]);
    try discriminate Hp.
  reflexivity.
Qed.

(** What an accumulation command does to the world, whatever its
    parameters: it fails and changes nothing, or it stores. *)
Lemma accumulates_effect {T : Type} {message : ProtoMessage T}
    (handler : list string -> M (option error)) (valueType : string)
    (put_in : T -> CheckpointData -> CheckpointData) (line : string) :
  accumulates handler valueType put_in ->
  (forall params w, List.length params <> 1%nat ->
     exists e, handler params w = Done (Some e) w) ->
  forall params w, initRead (reader w) = true ->
    exists t w', (err <- handler params ;; ret (after_switch line err)) w = Done t w'
                 /\ Effect line w t w'.
Proof.
  intros Hacc Hcount params w Hi. unfold bind.
  destruct (Nat.eq_dec (List.length params) 1) as [H1|H1].
  - destruct params as [|p [|q params]]; try discriminate.
    specialize (Hacc p w).
    destruct (activeBlock (reader w)) as [b|] eqn:Hb.
    + destruct (Go.DecodeString p) as [out|err].
      * destruct (Unmarshal out) as [payload|e]; rewrite Hacc; cbn;
          do 2 eexists; (split; [reflexivity|]).
        -- apply (Stored line w b); assumption.
        -- apply Failed.
      * rewrite Hacc. cbn. do 2 eexists. split; [reflexivity|apply Failed].
    + rewrite Hacc. cbn. do 2 eexists. split; [reflexivity|apply Failed].
  - destruct (Hcount params w H1) as [e He]. rewrite He. cbn.
    do 2 eexists. split; [reflexivity|apply Failed].
Qed.

Ltac wrong_count :=
  intros params w H; unfold bind; rewrite (validate_other _ _ _ H);
  eexists; reflexivity.

Lemma readCheckpointOverview_other (params : list string) (w : World) :
  List.length params <> 1%nat ->
  exists e, readCheckpointOverview params w = Done (Some e) w.
Proof. revert params w. unfold readCheckpointOverview. wrong_count. Qed.

Lemma readTransactionBlock_other (params : list string) (w : World) :
  List.length params <> 1%nat ->
  exists e, readTransactionBlock params w = Done (Some e) w.
Proof. revert params w. unfold readTransactionBlock. wrong_count. Qed.

Lemma readTransactionObjectChange_other (params : list string) (w : World) :
  List.length params <> 1%nat ->
  exists e, readTransactionObjectChange params w = Done (Some e) w.
Proof. revert params w. unfold readTransactionObjectChange. wrong_count. Qed.

Lemma readEvent_other (params : list string) (w : World) :
  List.length params <> 1%nat ->
  exists e, readEvent params w = Done (Some e) w.
Proof. revert params w. unfold readEvent. wrong_count. Qed.

Lemma readDisplayUpdate_other (params : list string) (w : World) :
  List.length params <> 1%nat ->
  exists e, readDisplayUpdate params w = Done (Some e) w.
Proof. revert params w. unfold readDisplayUpdate. wrong_count. Qed.

Lemma allowed_handler (line : string) (w : World) (r : Res Turn) :
  (exists t w', r = Done t w' /\ Effect line w t w') -> allowed line w r.
Proof. intros (t & w' & -> & H). exact H. Qed.

Lemma readInit_effect (line : string) (params : list string) (w : World) :
  initRead (reader w) = false ->
  allowed line w
    ((err <- readInit params ;;
      match err with
      | Some e => ret (Return None (Some (lineError line e)))
      | None => ret Continue
      end) w).
Proof.
  intro Hi. unfold bind.
  destruct (validateVariableChunk params [6; 7]%nat) as [e|] eqn:Hv.
  - unfold readInit. rewrite Hv. cbn. apply Failed.
  - apply validateVariableChunk_6_7 in Hv.
    assert (exists a b c d e f more,
               params = a :: b :: c :: d :: e :: f :: more
               /\ (List.length more <= 1)%nat) as (a & b & c & d & e & f & more & -> & Hm).
    { destruct Hv as [(a & b & c & d & e & f & ->)|(a & b & c & d & e & f & g & ->)].
      - exists a, b, c, d, e, f, []. split; [reflexivity|cbn; lia].
      - exists a, b, c, d, e, f, [g]. split; [reflexivity|cbn; lia]. }
    rewrite (readInit_run _ _ _ _ _ _ _ _ Hm).
    destruct (Go.ParseUint d) as [major|err]; [|apply Failed].
    destruct (major =? 0) eqn:Hz; [|apply Failed].
    apply Z.eqb_eq in Hz. subst major. cbn. apply Handshaken. exact Hi.
Qed.

Lemma readBlockStart_effect (line : string) (params : list string) (w : World) :
  initRead (reader w) = true ->
  command_of line = Some (LogBlockStart, params) ->
  allowed line w ((err <- readBlockStart params ;; ret (after_switch line err)) w).
Proof.
  intros Hi Hc. unfold bind.
  destruct (Nat.eq_dec (List.length params) 1) as [H1|H1].
  - destruct params as [|p [|q params]]; try discriminate.
    rewrite readBlockStart_run.
    destruct (Go.ParseUint p) as [h|err] eqn:Hp; [|apply Failed].
    destruct (activeBlock (reader w)) as [b|] eqn:Hb.
    + destruct (Checkpoint b) as [c|] eqn:Hk.
      * cbn. apply (Restarted line w b c h); assumption.
      * right. split; [reflexivity|]. split; [exact Hi|].
        exists p, h, b. repeat split; assumption.
    + cbn. apply Started; assumption.
  - unfold readBlockStart. rewrite (validateChunk_other _ H1). cbn. apply Failed.
Qed.

Lemma readBlockEnd_effect (line : string) (params : list string) (w : World) :
  initRead (reader w) = true ->
  allowed line w
    (('(block, err) <- readBlockEnd params ;;
      match err with
      | Some e => ret (Return None (Some (lineError line e)))
      | None => ret (Return (Some block) None)
      end) w).
Proof.
  intros Hi. unfold bind.
  destruct (Nat.eq_dec (List.length params) 1) as [H1|H1].
  - destruct params as [|p [|q params]]; try discriminate.
    rewrite readBlockEnd_run.
    destruct (Go.ParseUint p) as [h|err] eqn:Hp; [|apply Failed].
    destruct (activeBlock (reader w)) as [b|] eqn:Hb; [|apply Failed].
    destruct (negb (GetFirehoseBlockNumber b =? h)); [apply Failed|].
    destruct (List.length (Transactions b) =? 0)%nat eqn:Hn; [apply Failed|].
    assert (Transactions b <> []) as Ht.
    { intro E. rewrite E in Hn. discriminate. }
    pose proof (Finished line w b Hi Hb Ht) as HF.
    unfold turn_of in HF. unfold encoded_result.
    destruct (Encode (enveloppe_of b)) as [blk [e|]]; exact HF.
  - unfold readBlockEnd. rewrite (validateChunk_other _ H1). cbn. apply Failed.
Qed.

(** Whatever the line and the reader, one run of [next]'s loop body does
    one of the things [Effect] lists, or panics in one of two ways: on the
    prefix alone, which it cannot slice, and on a [BLOCK_START] over an
    accumulator without checkpoint. *)
Lemma next_line_effect (line : string) (w : World) :
  allowed line w (next_line line w).
Proof.
  destruct (command_of line) as [[name params]|] eqn:Hc.
  - rewrite (next_line_command _ _ _ _ Hc). unfold dispatch, bind at 1 2. cbn.
    destruct (initRead (reader w)) eqn:Hi; cbn [negb].
    + destruct (name =? LogCheckpoint)%string eqn:E1.
      { apply allowed_handler.
        exact (accumulates_effect _ _ _ line readCheckpointOverview_accumulates
                 readCheckpointOverview_other params w Hi). }
      destruct (name =? LogTrx)%string eqn:E2.
      { apply allowed_handler.
        exact (accumulates_effect _ _ _ line readTransactionBlock_accumulates
                 readTransactionBlock_other params w Hi). }
      destruct (name =? LogObjChange)%string eqn:E3.
      { apply allowed_handler.
        exact (accumulates_effect _ _ _ line readTransactionObjectChange_accumulates
                 readTransactionObjectChange_other params w Hi). }
      destruct (name =? LogEvent)%string eqn:E4.
      { apply allowed_handler.
        exact (accumulates_effect _ _ _ line readEvent_accumulates
                 readEvent_other params w Hi). }
      destruct (name =? LogDisplayUpdate)%string eqn:E5.
      { apply allowed_handler.
        exact (accumulates_effect _ _ _ line readDisplayUpdate_accumulates
                 readDisplayUpdate_other params w Hi). }
      destruct (name =? LogBlockStart)%string eqn:E6.
      { apply String.eqb_eq in E6. subst name.
        exact (readBlockStart_effect line params w Hi Hc). }
      destruct (name =? LogBlockEnd)%string eqn:E7.
      { exact (readBlockEnd_effect line params w Hi). }
      destruct (name =? LogInit)%string eqn:E8.
      { cbn. apply Failed. }
      unfold bind. destruct DebugEnabled; cbn.
      * apply Unknown. exact Hi.
      * apply PassedOver.
    + destruct (name =? LogInit)%string.
      * exact (readInit_effect line params w Hi).
      * cbn. apply Warned. exact Hi.
  - unfold command_of in Hc. unfold next_line.
    destruct (Go.HasPrefix line LogPrefix) eqn:Hp; cbn [negb]; [|apply PassedOver].
    destruct (Go.slice_from (String.length LogPrefix + 1) line) as [rest|] eqn:Hs.
    + destruct (Go.Split rest) as [|name [|p ps]] eqn:Hsp; try discriminate;
        cbn; apply TooFewTokens.
    + left. split; [reflexivity|]. exact (prefix_unsliced line Hp Hs).
Qed.

End Turns.

(** ** What every call of [ReadBlock] keeps *)

Section Invariants.

Context {schemas : Schemas} {model : BlockModel} {encoder : BlockEncoder} {host : Host}.

Local Open Scope go_scope.

Lemma turn_of_Return (line : string) (answer : option pbbstream_Block * option error) :
  exists out err, turn_of line answer = Return out err.
Proof. destruct answer as [blk [e|]]; cbn; do 2 eexists; reflexivity. Qed.

Ltac no_turn :=
  match goal with
  | H : turn_of ?line ?a = Continue |- _ =>
      destruct (turn_of_Return line a) as (? & ? & E); rewrite E in H; discriminate H
  end.

(** A turn that goes on hands nothing to the encoder and leaves the
    statistics and the channel as they are. *)
Lemma Effect_Continue (line : string) (w w' : World) :
  Effect line w Continue w' ->
  encoded (trace w') = encoded (trace w)
  /\ lines w' = lines w /\ stats (reader w') = stats (reader w).
Proof.
  intro H. inversion H; subst; try no_turn; cbn;
    rewrite ?encoded_app; cbn; rewrite ?app_nil_r; auto.
Qed.

(** A turn that returns has failed on its line and changed nothing, or
    has completed the active block. *)
Lemma Effect_Return (line : string) (w w' : World)
    (out : option (option pbbstream_Block)) (err : option error) :
  Effect line w (Return out err) w' ->
  (w' = w /\ out = None
   /\ (err = Some (InvalidLogLine line)
       \/ exists source, err = Some (LineError source line)))
  \/ (exists b,
        initRead (reader w) = true /\ activeBlock (reader w) = Some b
        /\ Transactions b <> [] /\ w' = finished b w
        /\ turn_of line (Encode (enveloppe_of b)) = Return out err).
Proof.
  intro H. inversion H; subst.
  - left. split; [reflexivity|]. split; [reflexivity|]. left. reflexivity.
  - left. split; [reflexivity|]. split; [reflexivity|]. right. eexists. reflexivity.
  - right. exists b. repeat split; assumption.
Qed.

(** What holds of a world and is kept by receiving from the channel, by
    logging and by every turn of the loop is kept by [next_from]. *)
Lemma next_from_keeps (P : World -> Prop) :
  (forall w ls, P w -> P (with_lines ls w)) ->
  (forall w, P w -> P (with_event (Logged ChannelClosed) w)) ->
  (forall line w t w', Effect line w t w' -> P w -> P w') ->
  forall ls w res w', next_from ls w = Done res w' -> P w -> P w'.
Proof.
  intros Hlines Hlog Hturn. induction ls as [|line rest IH]; intros w res w' H HP.
  - cbn in H. injection H as _ <-. apply Hlog. exact HP.
  - rewrite next_from_cons in H.
    pose proof (next_line_effect line (with_lines rest w)) as He.
    destruct (next_line line (with_lines rest w)) as [[|out err] w1|c];
      [| |discriminate]; cbn in He.
    + apply (IH w1 res w' H). apply (Hturn _ _ _ _ He). apply Hlines. exact HP.
    + injection H as _ <-. apply (Hturn _ _ _ _ He). apply Hlines. exact HP.
Qed.

Lemma ReadBlock_next (w w' : World) (res : option pbbstream_Block * option error) :
  ReadBlock w = Done res w' -> exists res', next_from (lines w) w = Done res' w'.
Proof.
  unfold ReadBlock, bind, next.
  destruct (next_from (lines w) w) as [[out [e|]] w1|c]; [| |discriminate].
  - intro H. injection H as _ <-. eexists. reflexivity.
  - destruct out; intro H; injection H as _ <-; eexists; reflexivity.
Qed.

Lemma ReadBlock_keeps (P : World -> Prop) :
  (forall w ls, P w -> P (with_lines ls w)) ->
  (forall w, P w -> P (with_event (Logged ChannelClosed) w)) ->
  (forall line w t w', Effect line w t w' -> P w -> P w') ->
  forall w res w', ReadBlock w = Done res w' -> P w -> P w'.
Proof.
  intros H1 H2 H3 w res w' H. destruct (ReadBlock_next _ _ _ H) as [res' H'].
  exact (next_from_keeps P H1 H2 H3 _ _ _ _ H').
Qed.

Lemma agreement_logged (r : ConsoleReader) (t : list Event) (entry : LogEntry) :
  agreement r t -> agreement r (t ++ [Logged entry]).
Proof.
  unfold agreement. rewrite encoded_app. cbn. rewrite app_nil_r. exact (fun H => H).
Qed.

Lemma transactions_in_app (es es' : list BlockEnveloppe) :
  transactions_in (es ++ es') = transactions_in es + transactions_in es'.
Proof. induction es as [|e es IH]; cbn; [reflexivity|rewrite IH; lia]. Qed.

Lemma agreement_turn (line : string) (w : World) (t : Turn) (w' : World) :
  Effect line w t w' ->
  agreement (reader w) (trace w) -> agreement (reader w') (trace w').
Proof.
  intros He Ha. inversion He; subst; try exact Ha;
    try (apply agreement_logged; exact Ha).
  - (* the handshake *)
    apply agreement_logged with (entry := Initialized clientName clientVersion fork 0 0 id)
      in Ha.
    destruct Ha as (A1 & A2 & A3 & A4 & A5 & A6).
    repeat split; try assumption; cbn in *; discriminate.
  - (* a start *)
    destruct Ha as (A1 & A2 & A3 & A4 & A5 & A6).
    repeat split; try assumption; cbn in *; congruence.
  - (* a restart *)
    apply agreement_logged
      with (entry := BlockStartWhileActive (SequenceNumber c) height) in Ha.
    destruct Ha as (A1 & A2 & A3 & A4 & A5 & A6).
    repeat split; try assumption; cbn in *; congruence.
  - (* a payload stored *)
    destruct Ha as (A1 & A2 & A3 & A4 & A5 & A6).
    repeat split; try assumption; cbn in *; congruence.
  - (* a block completed *)
    destruct Ha as (A1 & A2 & A3 & A4 & A5 & A6).
    unfold agreement. rewrite encoded_finished.
    rewrite length_app, transactions_in_app, map_app. cbn [map].
    rewrite last_last, Forall_app. cbn.
    rewrite A1, A2, A3.
    split; [lia|]. split; [lia|]. split; [lia|]. split; [reflexivity|].
    split; [|congruence].
    split; [exact A5|]. constructor; [|constructor]. split; [assumption|reflexivity].
Qed.

(** Every call of [ReadBlock] that returns keeps the agreement of the
    statistics with the blocks handed to the encoder. *)
Lemma ReadBlock_agreement (w w' : World) (res : option pbbstream_Block * option error) :
  ReadBlock w = Done res w' ->
  agreement (reader w) (trace w) -> agreement (reader w') (trace w').
Proof.
  apply (ReadBlock_keeps (fun w => agreement (reader w) (trace w))).
  - intros w0 ls H. exact H.
  - intros w0 H. apply agreement_logged. exact H.
  - exact agreement_turn.
Qed.

(** X17.  Whatever lines a reader made by [NewConsoleReader] has read, in
    however many calls of [ReadBlock], its statistics agree with what it
    handed to the encoder: [blockRate] was incremented once for each block
    handed over, [transactionRate] by the transactions of each, one start
    time was given to [blockAverageParseTime] for each, [lastBlock] is the
    reference of the latest block handed over; no block was handed over
    without a transaction or with another LIB number than its own; and
    before the handshake nothing is accumulated or handed over. *)
Theorem statistics_agree_with_encoder (w : World) :
  reachable w -> agreement (reader w) (trace w).
Proof.
  induction 1 as [ls|w w' res Hr IH Hrun].
  - cbn. unfold agreement. cbn. repeat split; constructor.
  - exact (ReadBlock_agreement _ _ _ Hrun IH).
Qed.

Lemma handshakes_app (t t' : list Event) :
  handshakes (t ++ t') = (handshakes t ++ handshakes t')%list.
Proof. unfold handshakes. rewrite logged_app, filter_app. reflexivity. Qed.

Lemma one_handshake_turn (line : string) (w : World) (t : Turn) (w' : World) :
  Effect line w t w' ->
  one_handshake (reader w) (trace w) -> one_handshake (reader w') (trace w').
Proof.
  intros He Ha. unfold one_handshake in *.
  inversion He; subst; try exact Ha; cbn [trace reader with_event handshaken started
    storing finished with_reader with_tick] in *;
    rewrite ?handshakes_app in *; cbn in *; rewrite ?app_nil_r in *; try exact Ha.
  - destruct (handshakes (trace w)) as [|[] [|]]; cbn;
      try contradiction; try (destruct Ha; congruence).
    repeat split; reflexivity.
Qed.

(** X16.  A reader takes the handshake at most once: the trace of a
    reader made by [NewConsoleReader] holds no handshake entry while
    [initRead] is false, and exactly one from then on, whose chain
    identifier is the one the reader holds; the two versions it reports
    are both 0, whatever the minor version of the line was. *)
Theorem handshake_logged_once (w : World) :
  reachable w -> one_handshake (reader w) (trace w).
Proof.
  induction 1 as [ls|w w' res Hr IH Hrun].
  - cbn. split; reflexivity.
  - revert IH. apply (ReadBlock_keeps (fun w => one_handshake (reader w) (trace w)))
      with (res := res) (w := w); [| |exact one_handshake_turn|exact Hrun].
    + intros w0 ls H. exact H.
    + intros w0 H. unfold one_handshake in *. cbn [trace reader with_event].
      rewrite handshakes_app. cbn. rewrite app_nil_r. exact H.
Qed.

(** X15.  Once the handshake is taken, no call of [ReadBlock] undoes or
    changes it, whatever lines it reads: [initRead] stays true and the
    chain identifier stays the one of the handshake. *)
Theorem handshake_is_final (w w' : World) (res : option pbbstream_Block * option error) :
  initRead (reader w) = true -> ReadBlock w = Done res w' ->
  initRead (reader w') = true /\ chainID (reader w') = chainID (reader w).
Proof.
  intros Hi Hrun.
  apply (ReadBlock_keeps
           (fun w0 => initRead (reader w0) = true
                      /\ chainID (reader w0) = chainID (reader w)))
    with (res := res) (w := w); [| | |exact Hrun|split; [exact Hi|reflexivity]].
  - intros w0 ls H. exact H.
  - intros w0 H. exact H.
  - intros line w0 t w1 He [H1 H2]. inversion He; subst; cbn; try (split; assumption).
    congruence.
Qed.

(** What [next]'s loop returns over the lines [ls], and what it has done
    by then. *)
Lemma next_from_result (ls : list string) :
  forall (w w' : World) (out : option (option pbbstream_Block)) (err : option error),
    lines w = ls ->
    next_from ls w = Done (out, err) w' ->
    (exists done, ls = (done ++ lines w')%list)
    /\ match err with
       | Some e =>
           out = None
           /\ ((e = EOF /\ lines w' = [])
               \/ exists line,
                    In line ls
                    /\ (e = InvalidLogLine line \/ exists source, e = LineError source line))
       | None =>
           exists b blk w0,
             out = Some blk /\ Encode (enveloppe_of b) = (blk, None)
             /\ Transactions b <> [] /\ activeBlock (reader w0) = Some b
             /\ w' = finished b w0
             /\ encoded (trace w0) = encoded (trace w)
             /\ stats (reader w0) = stats (reader w)
       end.
Proof.
  induction ls as [|line rest IH]; intros w w' out err Hls H.
  - cbn in H. injection H as <- <- <-. cbn. rewrite Hls.
    split; [exists []; reflexivity|]. split; [reflexivity|]. left. split; reflexivity.
  - rewrite next_from_cons in H.
    pose proof (next_line_effect line (with_lines rest w)) as He.
    destruct (next_line line (with_lines rest w)) as [[|out1 err1] w1|c];
      [| |discriminate]; cbn in He.
    + destruct (Effect_Continue _ _ _ He) as (He1 & He2 & He3).
      cbn in He1, He2, He3.
      destruct (IH w1 w' out err He2 H) as ((done & Hd) & Hres).
      split; [exists (line :: done); cbn; rewrite <- Hd; reflexivity|].
      destruct err as [e|].
      * destruct Hres as (Ho & [Heof|(l & Hin & Hl)]).
        -- split; [exact Ho|]. left. exact Heof.
        -- split; [exact Ho|]. right. exists l. split; [right; exact Hin|exact Hl].
      * destruct Hres as (b & blk & w0 & H1 & H2 & H3 & H4 & H5 & H6 & H7).
        exists b, blk, w0. repeat split; try assumption; congruence.
    + injection H as -> -> ->.
      destruct (Effect_Return _ _ _ _ _ He) as [(Hw & Ho & Herr)|(b & Hi & Hb & Ht & Hw & Hturn)];
        subst w'.
      * split; [exists [line]; reflexivity|].
        destruct Herr as [->|[source ->]]; (split; [exact Ho|]); right; exists line;
          (split; [left; reflexivity|]); [left|right; exists source]; reflexivity.
      * split; [exists [line]; reflexivity|].
        unfold turn_of in Hturn.
        destruct (Encode (enveloppe_of b)) as [blk [e|]] eqn:Henc;
          injection Hturn as <- <-.
        -- split; [reflexivity|]. right. exists line. split; [left; reflexivity|].
           right. exists e. reflexivity.
        -- exists b, blk, (with_lines rest w). repeat split; assumption.
Qed.

(** X13.  The errors of [ReadBlock]: [io.EOF] from the closed channel
    with no line left, the too-few-tokens error for a line it was given,
    or an error wrapped with the line it was given that caused it; the
    block returned with an error is nil.  In particular [ReadBlock] never
    returns its own nil-block error: what [next] returns without error is
    an interface holding a [*pbbstream.Block], which is never the nil
    interface, even when the pointer it holds is nil. *)
Theorem ReadBlock_errors (w w' : World) (out : option pbbstream_Block) (e : error) :
  ReadBlock w = Done (out, Some e) w' ->
  out = None /\ e <> NilBlock
  /\ ((e = EOF /\ lines w' = [])
      \/ exists line,
           In line (lines w)
           /\ (e = InvalidLogLine line \/ exists source, e = LineError source line)).
Proof.
  unfold ReadBlock, bind, next. intro H.
  destruct (next_from (lines w) w) as [[out1 err1] w1|c] eqn:Hn; [|discriminate].
  destruct (next_from_result _ _ _ _ _ eq_refl Hn) as (_ & Hres).
  destruct err1 as [e1|].
  - injection H as <- <- <-. destruct Hres as (_ & Hres).
    split; [reflexivity|]. split; [|exact Hres].
    destruct Hres as [[-> _]|(line & _ & [->|[source ->]])]; discriminate.
  - destruct Hres as (b & blk & w0 & -> & _). discriminate.
Qed.

(** X12.  A call of [ReadBlock] that returns without error has completed
    exactly one block: it read lines from the front of the channel up to a
    [BLOCK_END], handed one enveloppe to the encoder, that of an
    accumulator with at least one transaction, and returns the encoder's
    block, nil or not; the accumulator is cleared and its start time
    reset, the block counter has advanced by one and the last block is
    the reference of the block handed over. *)
Theorem ReadBlock_returns_one_block (w w' : World) (out : option pbbstream_Block) :
  ReadBlock w = Done (out, None) w' ->
  exists b,
    Transactions b <> []
    /\ Encode (enveloppe_of b) = (out, None)
    /\ encoded (trace w') = (encoded (trace w) ++ [enveloppe_of b])%list
    /\ activeBlock (reader w') = None
    /\ activeBlockStartTime (reader w') = 0
    /\ blockRate (stats (reader w')) = blockRate (stats (reader w)) + 1
    /\ transactionRate (stats (reader w'))
       = transactionRate (stats (reader w)) + Z.of_nat (List.length (Transactions b))
    /\ lastBlock (stats (reader w')) = AsRef b
    /\ exists done, lines w = (done ++ lines w')%list.
Proof.
  unfold ReadBlock, bind, next. intro H.
  destruct (next_from (lines w) w) as [[out1 err1] w1|c] eqn:Hn; [|discriminate].
  destruct (next_from_result _ _ _ _ _ eq_refl Hn) as (Hdone & Hres).
  destruct err1 as [e1|]; [discriminate|].
  destruct Hres as (b & blk & w0 & -> & Henc & Ht & Hb & -> & Htr & Hst).
  injection H as <- <-.
  exists b. split; [exact Ht|]. split; [exact Henc|].
  split; [rewrite encoded_finished, Htr; reflexivity|].
  cbn. rewrite Hst. repeat split. exact Hdone.
Qed.

(** What makes [next]'s loop panic over the lines [ls]. *)
Lemma next_from_panic (ls : list string) :
  forall (w : World) (c : panic_cause),
    next_from ls w = Panic c ->
    exists line,
      In line ls
      /\ ((c = SliceOutOfRange /\ line = LogPrefix)
          \/ (c = NilDereference
              /\ exists p h, command_of line = Some (LogBlockStart, [p])
                             /\ Go.ParseUint p = inl h)).
Proof.
  induction ls as [|line rest IH]; intros w c H; [discriminate|].
  rewrite next_from_cons in H.
  pose proof (next_line_effect line (with_lines rest w)) as He.
  destruct (next_line line (with_lines rest w)) as [[|out1 err1] w1|c1];
    [|discriminate|]; cbn in He.
  - destruct (IH w1 c H) as (l & Hin & Hl). exists l. split; [right; exact Hin|exact Hl].
  - injection H as ->. exists line. split; [left; reflexivity|].
    destruct He as [He|(Hc & _ & p & h & b & Hcmd & Hp & _)];
      [left; exact He|right].
    split; [exact Hc|]. exists p, h. split; assumption.
Qed.

(** X14.  [ReadBlock] panics in two ways only: slicing a line that is the
    prefix alone, and reading the sequence number of the missing
    checkpoint at a [BLOCK_START] line with a valid height.  No handler
    indexes its parameters out of range, and the accumulation handlers
    never dereference a missing accumulator. *)
Theorem ReadBlock_panics (w : World) (c : panic_cause) :
  ReadBlock w = Panic c ->
  exists line,
    In line (lines w)
    /\ ((c = SliceOutOfRange /\ line = LogPrefix)
        \/ (c = NilDereference
            /\ exists p h, command_of line = Some (LogBlockStart, [p])
                           /\ Go.ParseUint p = inl h)).
Proof.
  unfold ReadBlock, bind, next. intro H.
  destruct (next_from (lines w) w) as [[out1 [e|]] w1|c1] eqn:Hn;
    [discriminate|destruct out1; discriminate|].
  injection H as ->. exact (next_from_panic _ _ _ Hn).
Qed.

End Invariants.

(** ** The body of a block *)

Section Body.

Context {schemas : Schemas} {model : BlockModel} {encoder : BlockEncoder} {host : Host}.

Local Open Scope go_scope.

Lemma storing_same (b : CheckpointData) (w : World) :
  activeBlock (reader w) = Some b -> storing b w = w.
Proof.
  destruct w as [[start active id init st] ls t k]. cbn. intros ->. reflexivity.
Qed.

Lemma with_lines_same (w : World) : with_lines (lines w) w = w.
Proof. destruct w. reflexivity. Qed.

(** What a handler that [accumulates] does with a parameter that holds a
    message. *)
Lemma accumulates_decoded {T : Type} {message : ProtoMessage T}
    (handler : list string -> M (option error)) (valueType : string)
    (put_in : T -> CheckpointData -> CheckpointData)
    (p : string) (x : T) (b : CheckpointData) (w : World) :
  accumulates handler valueType put_in ->
  activeBlock (reader w) = Some b -> decoded p = Some x ->
  handler [p] w = Done None (storing (put_in x b) w).
Proof.
  intros Hacc Hb Hd. specialize (Hacc p w). rewrite Hb in Hacc.
  unfold decoded in Hd.
  destruct (Go.DecodeString p) as [out|]; [|discriminate].
  destruct (Unmarshal out) as [y|]; [|discriminate].
  injection Hd as <-. exact Hacc.
Qed.

(** Within a block, a line with a payload is stored and the loop goes
    on. *)
Lemma next_line_payload (line : string) (x : Payload) (b : CheckpointData) (w : World) :
  initRead (reader w) = true -> activeBlock (reader w) = Some b ->
  payload_of line = Some x ->
  next_line line w = Done Continue (storing (put_payload x b) w).
Proof.
  intros Hi Hb. unfold payload_of.
  destruct (command_of line) as [[name [|p [|q ps]]]|] eqn:Hc; try discriminate.
  rewrite (next_line_command _ _ _ _ Hc).
  destruct (name =? LogCheckpoint)%string eqn:E1.
  { apply String.eqb_eq in E1. subst name.
    destruct (decoded p) as [c|] eqn:Hd; [|discriminate].
    intro H. injection H as <-. rewrite dispatch_CHECKPOINT by exact Hi. unfold bind.
    rewrite (accumulates_decoded _ _ _ p c b w readCheckpointOverview_accumulates Hb Hd).
    reflexivity. }
  destruct (name =? LogTrx)%string eqn:E2.
  { apply String.eqb_eq in E2. subst name.
    destruct (decoded p) as [c|] eqn:Hd; [|discriminate].
    intro H. injection H as <-. rewrite dispatch_TRX by exact Hi. unfold bind.
    rewrite (accumulates_decoded _ _ _ p c b w readTransactionBlock_accumulates Hb Hd).
    reflexivity. }
  destruct (name =? LogObjChange)%string eqn:E3.
  { apply String.eqb_eq in E3. subst name.
    destruct (decoded p) as [c|] eqn:Hd; [|discriminate].
    intro H. injection H as <-. rewrite dispatch_OBJ_CHANGE by exact Hi. unfold bind.
    rewrite (accumulates_decoded _ _ _ p c b w
               readTransactionObjectChange_accumulates Hb Hd).
    reflexivity. }
  destruct (name =? LogEvent)%string eqn:E4.
  { apply String.eqb_eq in E4. subst name.
    destruct (decoded p) as [c|] eqn:Hd; [|discriminate].
    intro H. injection H as <-. rewrite dispatch_EVT by exact Hi. unfold bind.
    rewrite (accumulates_decoded _ _ _ p c b w readEvent_accumulates Hb Hd).
    reflexivity. }
  destruct (name =? LogDisplayUpdate)%string eqn:E5; [|discriminate].
  apply String.eqb_eq in E5. subst name.
  destruct (decoded p) as [c|] eqn:Hd; [|discriminate].
  intro H. injection H as <-. rewrite dispatch_DSP_UPDATE by exact Hi. unfold bind.
  rewrite (accumulates_decoded _ _ _ p c b w readDisplayUpdate_accumulates Hb Hd).
  reflexivity.
Qed.

(** The loop over the body of a block: every payload is put into the
    accumulator, in the order of the lines, and nothing else changes. *)
Lemma next_from_body (body : list string) :
  forall (xs : list Payload) (rest : list string) (b : CheckpointData) (w : World),
    initRead (reader w) = true -> activeBlock (reader w) = Some b ->
    lines w = (body ++ rest)%list ->
    Forall2 (fun line x => payload_of line = Some x) body xs ->
    next_from (body ++ rest) w
    = next_from rest (storing (accumulate xs b) (with_lines rest w)).
Proof.
  induction body as [|line body IH]; intros xs rest b w Hi Hb Hl Hxs.
  - inversion Hxs; subst. cbn in Hl. cbn [app accumulate fold_left].
    rewrite <- Hl, with_lines_same, (storing_same _ _ Hb). reflexivity.
  - inversion Hxs as [|? x ? xs' Hx Hrest]; subst. cbn [app].
    rewrite next_from_cons.
    rewrite (next_line_payload line x b) by (try assumption; exact Hb).
    rewrite (IH xs' rest (put_payload x b)); [reflexivity| | |reflexivity|exact Hrest].
    + exact Hi.
    + reflexivity.
Qed.

(** Each field of the accumulator holds what the lines of its own kind
    brought, in their order, whatever lines of other kinds came between
    them. *)
Lemma accumulate_fields (xs : list Payload) :
  forall b : CheckpointData,
    Transactions (accumulate xs b) = (Transactions b ++ transactions_of xs)%list
    /\ Events (accumulate xs b) = (Events b ++ events_of xs)%list
    /\ DisplayUpdates (accumulate xs b) = (DisplayUpdates b ++ display_updates_of xs)%list
    /\ Checkpoint (accumulate xs b) = checkpoint_of xs (Checkpoint b)
    /\ ObjectChange (accumulate xs b) = object_change_of xs (ObjectChange b).
Proof.
  induction xs as [|x xs IH]; intro b.
  - cbn. rewrite !app_nil_r. repeat split.
  - destruct (IH (put_payload x b)) as (H1 & H2 & H3 & H4 & H5).
    unfold accumulate in *. cbn [fold_left].
    rewrite H1, H2, H3, H4, H5.
    destruct x; cbn; rewrite <- ?app_assoc; repeat split.
Qed.

(** X11.  A whole block, whatever its body.  After the handshake and with
    no block active, [BLOCK_START], any number of accumulation lines with
    valid payloads in any order, and the [BLOCK_END] of the height the
    accumulated block reports make one call of [ReadBlock] hand that block
    to the encoder and return its answer, provided a transaction is among
    the payloads.  The block holds the transactions, the events and the
    display updates in the order of their lines, and the last checkpoint
    and the last object change of the body; lines of different kinds do
    not disturb each other.  The lines after the [BLOCK_END] stay in the
    channel. *)
Theorem block_of_any_body (ps pe : string) (h n : Z) (body rest : list string)
    (xs : list Payload) (w : World) :
  initRead (reader w) = true ->
  activeBlock (reader w) = None ->
  Go.ParseUint ps = inl h ->
  Forall2 (fun line x => payload_of line = Some x) body xs ->
  transactions_of xs <> [] ->
  Go.ParseUint pe = inl n ->
  GetFirehoseBlockNumber (accumulate xs emptyCheckpointData) = n ->
  let block := accumulate xs emptyCheckpointData in
  exists w',
    ReadBlock (with_lines (fire LogBlockStart ps
                             :: body ++ fire LogBlockEnd pe :: rest) w)
    = Done (surfaced (fire LogBlockEnd pe) (Encode (enveloppe_of block))) w'
    /\ encoded (trace w') = (encoded (trace w) ++ [enveloppe_of block])%list
    /\ Transactions block = transactions_of xs
    /\ Events block = events_of xs
    /\ DisplayUpdates block = display_updates_of xs
    /\ Checkpoint block = checkpoint_of xs None
    /\ ObjectChange block = object_change_of xs None
    /\ activeBlock (reader w') = None
    /\ stats (reader w') = completed block (time_Now (ticks w)) (stats (reader w))
    /\ ticks w' = S (ticks w)
    /\ lines w' = rest.
Proof.
  intros Hi Hn Hps Hxs Ht Hpe Hnum block.
  destruct (accumulate_fields xs emptyCheckpointData) as (F1 & F2 & F3 & F4 & F5).
  cbn in F1, F2, F3, F4, F5. fold block in F1, F2, F3, F4, F5, Hnum.
  unfold ReadBlock, bind at 1, next. cbn [lines with_lines].
  rewrite next_from_cons.
  rewrite (next_line_BLOCK_START ps h) by assumption.
  rewrite (next_from_body body xs (fire LogBlockEnd pe :: rest) emptyCheckpointData)
    by (try assumption; reflexivity).
  fold block.
  rewrite next_from_cons.
  rewrite (next_line_BLOCK_END pe n) by assumption.
  rewrite readBlockEnd_run, Hpe.
  cbn [activeBlock reader storing with_lines with_reader set_active].
  rewrite Hnum, Z.eqb_refl. cbn [negb].
  destruct (List.length (Transactions block) =? 0)%nat eqn:Hlen.
  { exfalso. apply Ht. rewrite <- F1. apply Nat.eqb_eq in Hlen.
    destruct (Transactions block); [reflexivity|discriminate]. }
  match goal with
  | |- context [Done _ ?W] => exists W
  end.
  split.
  - unfold surfaced, encoded_result.
    destruct (Encode (enveloppe_of block)) as [bstreamBlock [e|]]; reflexivity.
  - split; [rewrite encoded_finished; reflexivity|].
    repeat split; assumption.
Qed.

End Body.

(** ** Parameters: their number and their text *)

Section Parameters.

Context {schemas : Schemas} {model : BlockModel} {encoder : BlockEncoder} {host : Host}.

Local Open Scope go_scope.



Lemma finished_differs (b : CheckpointData) (w : World) : finished b w <> w.
Proof.
  intro H. apply (f_equal (fun w => List.length (trace w))) in H.
  cbn in H. rewrite !length_app in H. cbn in H. lia.
Qed.

Lemma started_differs (w : World) : started w <> w.
Proof. intro H. apply (f_equal ticks) in H. cbn in H. lia. Qed.

(** X9.  The height of [BLOCK_START] and [BLOCK_END] is read as
    [strconv.ParseUint] reads it.  With no block active, [BLOCK_START]
    starts a block exactly when its parameter is a non-empty string of
    decimal digits that writes a number up to [2^64 - 1]; a block in
    progress that holds a transaction is completed by [BLOCK_END] exactly
    when its parameter is such a string and writes the number the block
    reports.  Leading zeros are accepted; a sign, a base prefix, an
    underscore or an empty parameter is not. *)
Theorem height_parameter_text (p : string) (w : World) :
  (activeBlock (reader w) = None ->
   readBlockStart [p] w = Done None (started w)
   <-> p <> "" /\ Go.all_digits p = true /\ Go.decimal p 0 <= Go.maxUint64)
  /\ (forall b,
        activeBlock (reader w) = Some b -> Transactions b <> [] ->
        readBlockEnd [p] w = Done (encoded_result (Encode (enveloppe_of b))) (finished b w)
        <-> p <> "" /\ Go.all_digits p = true
            /\ Go.decimal p 0 = GetFirehoseBlockNumber b
            /\ Go.decimal p 0 <= Go.maxUint64).
Proof.
  split.
  - intro Hn. rewrite readBlockStart_run, Hn.
    destruct (Go.ParseUint p) as [h|err] eqn:Hp.
    + apply GoFacts.ParseUint_decimal in Hp. destruct Hp as (H1 & H2 & H3 & H4).
      split; [intros _|reflexivity]. rewrite H3. repeat split; assumption.
    + split; [discriminate|]. intros (H1 & H2 & H3).
      assert (Go.ParseUint p = inl (Go.decimal p 0)) as Hok
        by (apply GoFacts.ParseUint_decimal; repeat split; assumption).
      congruence.
  - intros b Hb Ht. rewrite readBlockEnd_run, Hb.
    destruct (Go.ParseUint p) as [h|err] eqn:Hp.
    + apply GoFacts.ParseUint_decimal in Hp. destruct Hp as (H1 & H2 & H3 & H4).
      destruct (GetFirehoseBlockNumber b =? h) eqn:Hh; cbn [negb].
      * apply Z.eqb_eq in Hh.
        destruct (List.length (Transactions b) =? 0)%nat eqn:Hlen.
        { apply Nat.eqb_eq in Hlen. destruct (Transactions b); [contradiction|discriminate]. }
        split; [intros _|reflexivity]. rewrite H3. repeat split; congruence.
      * apply Z.eqb_neq in Hh. split.
        -- intro H. injection H as _ H. symmetry in H. destruct (finished_differs _ _ H).
        -- intros (_ & _ & H5 & _). congruence.
    + split.
      * intro H. injection H as _ H. symmetry in H. destruct (finished_differs _ _ H).
      * intros (H1 & H2 & H3 & H4).
        assert (Go.ParseUint p = inl (Go.decimal p 0)) as Hok
          by (apply GoFacts.ParseUint_decimal; repeat split; assumption).
        congruence.
Qed.

(** X10.  [readInit] accepts the handshake exactly when it is given six
    or seven parameters and the fourth, the major version, is a non-empty
    string of decimal digits that writes 0; nothing else is looked at: not
    the client name, the client version or the fork, not the minor
    version, not the chain identifier, which may be empty. *)
Theorem readInit_accepts_iff (params : list string) (w : World) :
  returned (readInit params w) = Some None
  <-> (List.length params = 6%nat \/ List.length params = 7%nat)
      /\ nth 3 params "" <> ""
      /\ Go.all_digits (nth 3 params "") = true
      /\ Go.decimal (nth 3 params "") 0 = 0.
Proof.
  destruct (validateVariableChunk params [6; 7]%nat) as [err|] eqn:Hv.
  - unfold readInit. rewrite Hv. cbn. split; [discriminate|].
    intros (Hlen & _). exfalso. revert Hv. unfold validateVariableChunk. cbn [existsb].
    destruct Hlen as [-> | ->]; discriminate.
  - apply validateVariableChunk_6_7 in Hv.
    assert (exists a b c d e f more,
               params = a :: b :: c :: d :: e :: f :: more
               /\ (List.length more <= 1)%nat) as (a & b & c & d & e & f & more & -> & Hm).
    { destruct Hv as [(a & b & c & d & e & f & ->)|(a & b & c & d & e & f & g & ->)].
      - exists a, b, c, d, e, f, []. split; [reflexivity|cbn; lia].
      - exists a, b, c, d, e, f, [g]. split; [reflexivity|cbn; lia]. }
    rewrite (readInit_run _ _ _ _ _ _ _ _ Hm). cbn [nth].
    assert (List.length (a :: b :: c :: d :: e :: f :: more) = 6%nat
            \/ List.length (a :: b :: c :: d :: e :: f :: more) = 7%nat) as Hlen.
    { destruct more as [|g [|g' more]]; cbn in *; [left|right|]; lia. }
    destruct (Go.ParseUint d) as [major|err] eqn:Hp.
    + apply GoFacts.ParseUint_decimal in Hp. destruct Hp as (H1 & H2 & H3 & H4).
      destruct (major =? 0) eqn:Hz.
      * apply Z.eqb_eq in Hz. split; [intros _|reflexivity].
        split; [exact Hlen|]. repeat split; congruence.
      * apply Z.eqb_neq in Hz. split; [discriminate|].
        intros (_ & _ & _ & H5). congruence.
    + split; [discriminate|]. intros (_ & H1 & H2 & H3).
      assert (Go.ParseUint d = inl 0) as Hok.
      { apply GoFacts.ParseUint_decimal. repeat split; try assumption.
        unfold Go.maxUint64. lia. }
      congruence.
Qed.

(** X18.  What the periodic log of the statistics reports, at any time in
    the life of a reader made by [NewConsoleReader]: under [block_rate] a
    counter fed once for each block handed to the encoder, under
    [trx_rate] a counter fed the number of their transactions, under
    [last_block_num] and [last_block_id] the reference of the latest
    block handed over (0 and the empty string before the first), under
    [block_average_parse_time] a counter given one start time for each
    block; in this order. *)
Theorem ZapFields_report (w : World) :
  reachable w ->
  let blocks := encoded (trace w) in
  let latest := last (map (fun e => AsRef (Block e)) blocks) {| Num := 0; Id := "" |} in
  ZapFields (stats (reader w))
  = [Stringer_rate "block_rate" (Z.of_nat (List.length blocks));
     Stringer_rate "trx_rate" (transactions_in blocks);
     Uint64 "last_block_num" (Num latest);
     String_ "last_block_id" (Id latest);
     Stringer_average "block_average_parse_time"
       (blockAverageParseTime (stats (reader w)))]
  /\ List.length (blockAverageParseTime (stats (reader w))) = List.length blocks.
Proof.
  intros Hr blocks latest.
  assert (agreement (reader w) (trace w)) as (A1 & A2 & A3 & A4 & _).
  { induction Hr as [ls|w w' res Hr IH Hrun].
    - cbn. unfold agreement. cbn. repeat split; constructor.
    - exact (ReadBlock_agreement _ _ _ Hrun IH). }
  unfold ZapFields. rewrite A1, A2, A4. split; [reflexivity|exact A3].
Qed.

(** X19.  The end of the stream is final: once [ReadBlock] has returned
    [io.EOF], every further call returns [io.EOF] again and changes
    nothing of the reader; it only logs the closed channel once more. *)
Theorem EOF_is_final (w w' : World) (out : option pbbstream_Block) :
  ReadBlock w = Done (out, Some EOF) w' ->
  ReadBlock w' = Done (None, Some EOF) (with_event (Logged ChannelClosed) w')
  /\ reader (with_event (Logged ChannelClosed) w') = reader w'
  /\ lines (with_event (Logged ChannelClosed) w') = [].
Proof.
  intro H. unfold ReadBlock, bind, next in H.
  destruct (next_from (lines w) w) as [[out1 [e|]] w1|c] eqn:Hn;
    [|destruct out1; discriminate|discriminate].
  injection H as _ -> <-.
  destruct (next_from_EOF _ _ _ _ eq_refl Hn) as (Hl & _).
  unfold ReadBlock, bind, next. rewrite Hl. cbn.
  split; [reflexivity|]. split; [reflexivity|exact Hl].
Qed.

End Parameters.

(** ** A stream of blocks *)

Section Blocks.

Context {schemas : Schemas} {model : BlockModel} {encoder : BlockEncoder} {host : Host}.

Local Open Scope go_scope.

Lemma payloads_of_each (body : list string) :
  forall xs, payloads_of body = Some xs ->
             Forall2 (fun line x => payload_of line = Some x) body xs.
Proof.
  induction body as [|line body IH]; intros xs H; cbn in H.
  - injection H as <-. constructor.
  - destruct (payload_of line) as [x|] eqn:Hx; [|discriminate].
    destruct (payloads_of body) as [xs'|]; [|discriminate].
    injection H as <-. constructor; [exact Hx|apply IH; reflexivity].
Qed.

(** One call of [ReadBlock] over the lines of a block in order, and the
    world it leaves. *)
Lemma ReadBlock_block_of (bl : BlockLines) (b : CheckpointData) (rest : list string)
    (w : World) :
  initRead (reader w) = true -> activeBlock (reader w) = None ->
  block_of bl = Some b ->
  ReadBlock (with_lines (lines_of bl ++ rest) w)
  = Done (surfaced (fire LogBlockEnd (end_height bl)) (Encode (enveloppe_of b)))
      (finished b (storing b (started (with_lines rest w)))).
Proof.
  intros Hi Hn. unfold block_of.
  destruct (Go.ParseUint (start_height bl)) as [h|] eqn:Hps; [|discriminate].
  destruct (payloads_of (body_lines bl)) as [xs|] eqn:Hxs; [|discriminate].
  destruct (Go.ParseUint (end_height bl)) as [n|] eqn:Hpe; [|discriminate].
  cbv zeta.
  destruct (GetFirehoseBlockNumber (accumulate xs emptyCheckpointData) =? n) eqn:Hnum;
    [|discriminate].
  destruct (List.length (Transactions (accumulate xs emptyCheckpointData)) =? 0)%nat
    eqn:Hlen; [discriminate|].
  cbn [andb negb]. intro H. injection H as <-.
  apply Z.eqb_eq in Hnum. apply payloads_of_each in Hxs.
  unfold lines_of. cbn [app]. rewrite <- app_assoc. cbn [app].
  unfold ReadBlock, bind at 1, next. cbn [lines with_lines].
  rewrite next_from_cons.
  rewrite (next_line_BLOCK_START (start_height bl) h) by assumption.
  rewrite (next_from_body (body_lines bl) xs (fire LogBlockEnd (end_height bl) :: rest)
             emptyCheckpointData)
    by (try assumption; reflexivity).
  rewrite next_from_cons.
  rewrite (next_line_BLOCK_END (end_height bl) n) by assumption.
  rewrite readBlockEnd_run, Hpe.
  cbn [activeBlock reader storing with_lines with_reader set_active].
  rewrite Hnum, Z.eqb_refl, Hlen. cbn [negb].
  unfold surfaced, encoded_result.
  destruct (Encode (enveloppe_of (accumulate xs emptyCheckpointData)))
    as [bstreamBlock [e|]]; reflexivity.
Qed.

(** X20.  A stream of blocks in order is read block by block.  After the
    handshake and with no block active, when the channel holds the lines
    of blocks that are each in order (a [BLOCK_START] with a height, body
    lines with valid payloads, a transaction among them, and the
    [BLOCK_END] of the height the block reports), as many calls of
    [ReadBlock] as there are blocks return the encoder's answer for each
    block, in the order of the stream; every block is handed to the
    encoder once, none is lost or repeated, and the reader is left with no
    active block in front of the lines that follow. *)
Theorem blocks_read_in_order (bls : list BlockLines) :
  forall (bs : list CheckpointData) (rest : list string) (w : World),
    initRead (reader w) = true -> activeBlock (reader w) = None ->
    map block_of bls = map Some bs ->
    lines w = (flat_map lines_of bls ++ rest)%list ->
    exists w',
      ReadBlocks (List.length bls) w = Done (answers bls bs) w'
      /\ encoded (trace w') = (encoded (trace w) ++ map enveloppe_of bs)%list
      /\ blockRate (stats (reader w'))
         = blockRate (stats (reader w)) + Z.of_nat (List.length bs)
      /\ initRead (reader w') = true
      /\ activeBlock (reader w') = None
      /\ lines w' = rest.
Proof.
  induction bls as [|bl bls IH]; intros bs rest w Hi Hn Hbs Hl.
  - destruct bs; [|discriminate]. exists w. cbn. rewrite app_nil_r, Z.add_0_r.
    repeat split; assumption.
  - destruct bs as [|b bs]; [discriminate|]. cbn [map] in Hbs.
    injection Hbs as Hb Hbs.
    cbn [flat_map] in Hl. rewrite <- app_assoc in Hl.
    cbn [ReadBlocks List.length]. unfold bind at 1.
    rewrite <- (with_lines_same w), Hl.
    rewrite (ReadBlock_block_of bl b _ w Hi Hn Hb).
    destruct (IH bs rest
                (finished b (storing b
                   (started (with_lines (flat_map lines_of bls ++ rest)%list w))))
                Hi eq_refl Hbs eq_refl)
      as (w' & Hrun & Henc & Hrate & Hi' & Hn' & Hl').
    exists w'. unfold bind. rewrite Hrun. cbn [answers].
    split; [reflexivity|].
    split; [rewrite Henc, encoded_finished; cbn; rewrite <- app_assoc; reflexivity|].
    split; [rewrite Hrate; cbn; lia|].
    repeat split; assumption.
Qed.

End Blocks.

(** * Sample runs *)

Section Samples.

Import Sample.

(** C10 on sample lines: five parameters are refused; [1] as major version
    is refused with 0 and with 7 as minor version; six and seven
    parameters with major version 0 store the last one as chain
    identifier. *)
Lemma readInit_parameter_count_witness :
  readInit ["sui"; "1.14.0"; "mainnet"; "0"; "1"] (fresh [])
  = Done (Some (InvalidLogLineLength (FieldsRequiredOneOf [6; 7]%nat 5))) (fresh [])
  /\ readInit ["sui"; "1.14.0"; "mainnet"; "1"; "0"; "chain"] (fresh [])
     = Done (Some (UnsupportedMajorVersion 1)) (fresh [])
  /\ readInit ["sui"; "1.14.0"; "mainnet"; "1"; "7"; "chain"] (fresh [])
     = Done (Some (UnsupportedMajorVersion 1)) (fresh [])
  /\ (exists w', readInit ["sui"; "1.14.0"; "mainnet"; "0"; "1"; "chain"] (fresh [])
                 = Done None w'
                 /\ initRead (reader w') = true /\ chainID (reader w') = "chain")
  /\ (exists w', readInit ["sui"; "1.14.0"; "mainnet"; "0"; "1"; "x"; "chain"] (fresh [])
                 = Done None w'
                 /\ initRead (reader w') = true /\ chainID (reader w') = "chain").
Proof.
  split; [|split; [|split; [|split]]].
  - apply (readInit_parameter_count
             ["sui"; "1.14.0"; "mainnet"; "0"; "1"] (fresh []));
      simpl; lia.
  - apply (readInit_parameter_count
             ["sui"; "1.14.0"; "mainnet"; "1"; "0"; "chain"] (fresh []));
      [left; reflexivity|reflexivity|lia].
  - apply (readInit_parameter_count
             ["sui"; "1.14.0"; "mainnet"; "1"; "7"; "chain"] (fresh []));
      [left; reflexivity|reflexivity|lia].
  - apply (readInit_parameter_count
             ["sui"; "1.14.0"; "mainnet"; "0"; "1"; "chain"] (fresh []));
      [left; reflexivity|reflexivity].
  - apply (readInit_parameter_count
             ["sui"; "1.14.0"; "mainnet"; "0"; "1"; "x"; "chain"] (fresh []));
      [right; reflexivity|reflexivity].
Defined.

(** C5 on a sample block: [BLOCK_END 10] over an active block of height 10
    with one transaction hands one enveloppe to the encoder. *)
Lemma readBlockEnd_completes_iff_witness :
  Go.ParseUint "10" = inl 10
  /\ exists out w',
       readBlockEnd ["10"] (accumulating Sample.block10 []) = Done out w'
       /\ exists enveloppe,
            encoded (trace w')
            = (encoded (trace (accumulating Sample.block10 [])) ++ [enveloppe])%list.
Proof.
  split; [reflexivity|].
  destruct (readBlockEnd_completes_iff "10" 10
              (accumulating Sample.block10 []) eq_refl)
    as [(out & w' & Hrun & Hiff & _) _].
  exists out, w'. split; [exact Hrun|].
  apply Hiff. exists Sample.block10. repeat split. discriminate.
Defined.

(** C7 on a sample block: with the encoder that always fails,
    [BLOCK_END 10] over a block of height 10 returns the encoder's error,
    and [ReadBlock] returns it wrapped with the line. *)
Lemma readBlockEnd_counts_clears_then_encodes_witness :
  readBlockEnd (encoder := Sample.failing_encoder) ["10"]
    (accumulating Sample.block10 [])
  = Done (None, Some (Foreign "encoder failure"))
      (finished Sample.block10 (accumulating Sample.block10 []))
  /\ ReadBlock (encoder := Sample.failing_encoder)
       (accumulating Sample.block10 ["FIRE BLOCK_END 10"])
     = Done (None, Some (LineError (Foreign "encoder failure") "FIRE BLOCK_END 10"))
         (finished Sample.block10 (accumulating Sample.block10 [])).
Proof.
  destruct (readBlockEnd_counts_clears_then_encodes
              (encoder := Sample.failing_encoder) "10" 10 Sample.block10
              (accumulating Sample.block10 [])
              ltac:(reflexivity) ltac:(reflexivity) ltac:(reflexivity)
              ltac:(discriminate))
    as (_ & _ & _ & _ & _ & _ & Herr).
  destruct (Herr None (Foreign "encoder failure") eq_refl) as [Hrun Hread].
  split; [exact Hrun|].
  exact (Hread [] eq_refl).
Defined.

(** C7 as stated fails: the encoder's error reaches the caller of
    [ReadBlock] inside a [LineError], not unchanged. *)
Lemma encoder_error_is_wrapped :
  returned
    (ReadBlock (encoder := Sample.failing_encoder)
       (ready ["FIRE BLOCK_START 0"; "FIRE TRX aGk="; "FIRE BLOCK_END 0"]))
  = Some (None, Some (LineError (Foreign "encoder failure") "FIRE BLOCK_END 0"))
  /\ Encode (BlockEncoder := Sample.failing_encoder)
       (enveloppe_of (set_Transactions [Sample.payload_hi] emptyCheckpointData))
     = (None, Some (Foreign "encoder failure")).
Proof. split; reflexivity. Qed.





(** C3 as stated fails: the channel closes after [BLOCK_START 10], a block
    is in progress, and [ReadBlock] returns [io.EOF] all the same. *)
Lemma end_of_stream_within_a_block :
  returned (ReadBlock (fresh [init_line; "FIRE BLOCK_START 10"]))
  = Some (None, Some EOF)
  /\ option_map (fun w => activeBlock (reader w))
       (world_after (ReadBlock (fresh [init_line; "FIRE BLOCK_START 10"])))
     = Some (Some emptyCheckpointData).
Proof. split; reflexivity. Qed.

(** X1 on a sample line. *)
Lemma unprefixed_line_passed_over_witness :
  next_line "sui-node: listening" (ready []) = Done Continue (ready [])
  /\ ReadBlock (with_lines ["sui-node: listening"; "FIRE BLOCK_START 3"] (ready []))
     = ReadBlock (with_lines ["FIRE BLOCK_START 3"] (ready [])).
Proof.
  exact (unprefixed_line_passed_over "sui-node: listening" ["FIRE BLOCK_START 3"]
           (ready []) eq_refl).
Defined.

(** X2 on a sample line: a [BLOCK_END] without height. *)
Lemma one_token_line_fails_witness :
  ReadBlock (with_lines ["FIRE BLOCK_END"] (ready []))
  = Done (None, Some (InvalidLogLine "FIRE BLOCK_END")) (with_lines [] (ready [])).
Proof.
  exact (one_token_line_fails "FIRE BLOCK_END" "BLOCK_END" [] (ready [])
           eq_refl eq_refl eq_refl).
Defined.



(** X5 on the sample block of height 10, restarted at height 11. *)
Lemma BLOCK_START_over_checkpoint_witness :
  readBlockStart ["11"] (accumulating block10 [])
  = Done None
      (started (with_event (Logged (BlockStartWhileActive 10 11))
                  (accumulating block10 [])))
  /\ level_of (BlockStartWhileActive 10 11) = InfoLevel
  /\ activeBlock
       (reader (started (with_event (Logged (BlockStartWhileActive 10 11))
                           (accumulating block10 []))))
     = Some emptyCheckpointData.
Proof.
  exact (BLOCK_START_over_checkpoint "11" 11 block10 10 (accumulating block10 [])
           eq_refl eq_refl eq_refl).
Defined.

(** X6 on two sample handshakes. *)
Lemma readInit_minor_unread_witness :
  readInit ["sui"; "1.14.0"; "mainnet"; "0"; "1"; "chain"] (fresh [])
  = readInit ["sui"; "1.14.0"; "mainnet"; "0"; "x"; "chain"] (fresh []).
Proof.
  exact (readInit_minor_unread "sui" "1.14.0" "mainnet" "0" "1" "x" "chain" []
           (fresh []) (Nat.le_0_l 1)).
Defined.

(** X7 on a sample payload. *)
Lemma validate_decodes_encoded_witness :
  Go.EncodeToString payload_hi = "aGk="
  /\ validate ["aGk="] "TRX" (accumulating block10 [])
     = Done (payload_hi, None) (accumulating block10 []).
Proof.
  split; [reflexivity|].
  exact (validate_decodes_encoded payload_hi "TRX" block10 (accumulating block10 [])
           eq_refl).
Defined.


(** X11 on a block of height 10 whose body mixes the five kinds of
    lines; a further [BLOCK_START] stays in the channel. *)
Lemma block_of_any_body_witness :
  exists w',
    ReadBlock (ready ["FIRE BLOCK_START 10"; "FIRE EVT aA=="; "FIRE TRX aGk=";
                      "FIRE CHECKPOINT Cg=="; "FIRE OBJ_CHANGE aA==";
                      "FIRE TRX aA=="; "FIRE DSP_UPDATE aGk="; "FIRE OBJ_CHANGE aGk=";
                      "FIRE BLOCK_END 10"; "FIRE BLOCK_START 11"])
    = Done (Some (enveloppe_of
                    {| Checkpoint := Some 10; Transactions := [payload_hi; payload_h];
                       ObjectChange := Some payload_hi; Events := [payload_h];
                       DisplayUpdates := [payload_hi] |}), None) w'
    /\ encoded (trace w')
       = [enveloppe_of
            {| Checkpoint := Some 10; Transactions := [payload_hi; payload_h];
               ObjectChange := Some payload_hi; Events := [payload_h];
               DisplayUpdates := [payload_hi] |}]
    /\ activeBlock (reader w') = None
    /\ blockAverageParseTime (stats (reader w')) = [1000]
    /\ ticks w' = 1%nat
    /\ lines w' = ["FIRE BLOCK_START 11"].
Proof.
  destruct (block_of_any_body "10" "10" 10 10
              ["FIRE EVT aA=="; "FIRE TRX aGk="; "FIRE CHECKPOINT Cg==";
               "FIRE OBJ_CHANGE aA=="; "FIRE TRX aA=="; "FIRE DSP_UPDATE aGk=";
               "FIRE OBJ_CHANGE aGk="]
              ["FIRE BLOCK_START 11"]
              [@AnEvent schemas payload_h; @ATransaction schemas payload_hi;
               @ACheckpoint schemas 10; @AnObjectChange schemas payload_h;
               @ATransaction schemas payload_h; @ADisplayUpdate schemas payload_hi;
               @AnObjectChange schemas payload_hi]
              (ready [])
              eq_refl eq_refl eq_refl
              ltac:(repeat (constructor; [reflexivity|]); constructor)
              ltac:(discriminate) eq_refl eq_refl)
    as (w' & H1 & H2 & _ & _ & _ & _ & _ & H3 & H4 & H5 & H6).
  exists w'. split; [exact H1|]. split; [exact H2|]. split; [exact H3|].
  split; [rewrite H4; reflexivity|]. split; [exact H5|exact H6].
Defined.

(** X12 on the [BLOCK_END] of the sample block of height 10. *)
Lemma ReadBlock_returns_one_block_witness :
  ReadBlock (accumulating block10 ["FIRE BLOCK_END 10"; "FIRE BLOCK_START 11"])
  = Done (Some (enveloppe_of block10), None)
      (finished block10 (accumulating block10 ["FIRE BLOCK_START 11"]))
  /\ exists b,
       Transactions b <> []
       /\ Encode (enveloppe_of b) = (Some (enveloppe_of block10), None)
       /\ encoded (trace (finished block10 (accumulating block10 ["FIRE BLOCK_START 11"])))
          = [enveloppe_of b]
       /\ blockRate
            (stats (reader (finished block10
                              (accumulating block10 ["FIRE BLOCK_START 11"])))) = 1
       /\ exists done,
            ["FIRE BLOCK_END 10"; "FIRE BLOCK_START 11"]
            = (done ++ ["FIRE BLOCK_START 11"])%list.
Proof.
  assert (ReadBlock (accumulating block10 ["FIRE BLOCK_END 10"; "FIRE BLOCK_START 11"])
          = Done (Some (enveloppe_of block10), None)
              (finished block10 (accumulating block10 ["FIRE BLOCK_START 11"])))
    as Hrun by reflexivity.
  split; [exact Hrun|].
  destruct (ReadBlock_returns_one_block _ _ _ Hrun)
    as (b & H1 & H2 & H3 & _ & _ & H4 & _ & _ & H5).
  exists b. split; [exact H1|]. split; [exact H2|]. split; [exact H3|].
  split; [exact H4|exact H5].
Defined.

(** X13 on a [TRX] line outside a block. *)
Lemma ReadBlock_errors_witness :
  ReadBlock (ready ["FIRE TRX aGk="])
  = Done (None, Some (LineError (NoActiveBlock "TRX") "FIRE TRX aGk=")) (ready [])
  /\ LineError (NoActiveBlock "TRX") "FIRE TRX aGk=" <> NilBlock
  /\ ((LineError (NoActiveBlock "TRX") "FIRE TRX aGk=" = EOF /\ lines (ready []) = [])
      \/ exists line,
           In line ["FIRE TRX aGk="]
           /\ (LineError (NoActiveBlock "TRX") "FIRE TRX aGk=" = InvalidLogLine line
               \/ exists source,
                    LineError (NoActiveBlock "TRX") "FIRE TRX aGk="
                    = LineError source line)).
Proof.
  assert (ReadBlock (ready ["FIRE TRX aGk="])
          = Done (None, Some (LineError (NoActiveBlock "TRX") "FIRE TRX aGk=")) (ready []))
    as Hrun by reflexivity.
  split; [exact Hrun|].
  exact (proj2 (ReadBlock_errors _ _ _ _ Hrun)).
Defined.

(** X14 on the prefix alone. *)
Lemma ReadBlock_panics_witness :
  ReadBlock (fresh ["# a comment"; "FIRE"]) = Panic SliceOutOfRange
  /\ exists line,
       In line ["# a comment"; "FIRE"]
       /\ ((SliceOutOfRange = SliceOutOfRange /\ line = LogPrefix)
           \/ (SliceOutOfRange = NilDereference
               /\ exists p h, command_of line = Some (LogBlockStart, [p])
                              /\ Go.ParseUint p = inl h)).
Proof.
  assert (ReadBlock (fresh ["# a comment"; "FIRE"]) = Panic SliceOutOfRange)
    as Hrun by reflexivity.
  split; [exact Hrun|].
  exact (ReadBlock_panics _ _ Hrun).
Defined.

(** X15 on a second handshake line, of another chain. *)
Lemma handshake_is_final_witness :
  ReadBlock (ready ["FIRE INIT sui 1.14.0 testnet 0 1 other"])
  = Done (None, Some (LineError InitAlreadyRead "FIRE INIT sui 1.14.0 testnet 0 1 other"))
      (ready [])
  /\ initRead (reader (ready [])) = true
  /\ chainID (reader (ready [])) = "4btiuiMPvEENsttpZC7CZ53DruC3MAgfznDbASZ7DR6S".
Proof.
  assert (ReadBlock (ready ["FIRE INIT sui 1.14.0 testnet 0 1 other"])
          = Done (None, Some (LineError InitAlreadyRead
                                "FIRE INIT sui 1.14.0 testnet 0 1 other")) (ready []))
    as Hrun by reflexivity.
  split; [exact Hrun|].
  refine (handshake_is_final _ _ _ _ Hrun). reflexivity.
Defined.

(** X16 on a handshake of minor version 7 followed by a second handshake
    line: one entry, with 0 for both versions. *)
Lemma handshake_logged_once_witness :
  ReadBlock (fresh ["FIRE INIT sui 1.14.0 mainnet 0 7 chain";
                    "FIRE INIT sui 1.14.0 testnet 0 1 other"])
  = Done (None, Some (LineError InitAlreadyRead "FIRE INIT sui 1.14.0 testnet 0 1 other"))
      (handshaken "sui" "1.14.0" "mainnet" 0 0 "chain" (fresh []))
  /\ handshakes (trace (handshaken "sui" "1.14.0" "mainnet" 0 0 "chain" (fresh [])))
     = [Initialized "sui" "1.14.0" "mainnet" 0 0 "chain"]
  /\ one_handshake (reader (handshaken "sui" "1.14.0" "mainnet" 0 0 "chain" (fresh [])))
       (trace (handshaken "sui" "1.14.0" "mainnet" 0 0 "chain" (fresh []))).
Proof.
  assert (ReadBlock (fresh ["FIRE INIT sui 1.14.0 mainnet 0 7 chain";
                            "FIRE INIT sui 1.14.0 testnet 0 1 other"])
          = Done (None, Some (LineError InitAlreadyRead
                                "FIRE INIT sui 1.14.0 testnet 0 1 other"))
              (handshaken "sui" "1.14.0" "mainnet" 0 0 "chain" (fresh [])))
    as Hrun by reflexivity.
  split; [exact Hrun|]. split; [reflexivity|].
  exact (handshake_logged_once _ (reach_read _ _ _ (reach_fresh _) Hrun)).
Defined.

(** X17 on a fresh reader that reads a handshake and a block. *)
Lemma statistics_agree_with_encoder_witness :
  ReadBlock (fresh one_block) = Done (Some (enveloppe_of block10), None) after_one_block
  /\ encoded (trace after_one_block) = [enveloppe_of block10]
  /\ agreement (reader after_one_block) (trace after_one_block).
Proof.
  assert (ReadBlock (fresh one_block)
          = Done (Some (enveloppe_of block10), None) after_one_block)
    as Hrun by reflexivity.
  split; [exact Hrun|]. split; [reflexivity|].
  exact (statistics_agree_with_encoder _ (reach_read _ _ _ (reach_fresh _) Hrun)).
Defined.

(** X18 on the same run. *)
Lemma ZapFields_report_witness :
  ReadBlock (fresh one_block) = Done (Some (enveloppe_of block10), None) after_one_block
  /\ ZapFields (stats (reader after_one_block))
     = [Stringer_rate "block_rate" 1; Stringer_rate "trx_rate" 1;
        Uint64 "last_block_num" 10; String_ "last_block_id" "";
        Stringer_average "block_average_parse_time" [1000]].
Proof.
  assert (ReadBlock (fresh one_block)
          = Done (Some (enveloppe_of block10), None) after_one_block)
    as Hrun by reflexivity.
  split; [exact Hrun|].
  exact (proj1 (ZapFields_report _ (reach_read _ _ _ (reach_fresh _) Hrun))).
Defined.

(** X19 on a closed channel. *)
Lemma EOF_is_final_witness :
  ReadBlock (ready []) = Done (None, Some EOF) (with_event (Logged ChannelClosed) (ready []))
  /\ ReadBlock (with_event (Logged ChannelClosed) (ready []))
     = Done (None, Some EOF)
         (with_event (Logged ChannelClosed) (with_event (Logged ChannelClosed) (ready []))).
Proof.
  assert (ReadBlock (ready [])
          = Done (None, Some EOF) (with_event (Logged ChannelClosed) (ready [])))
    as Hrun by reflexivity.
  split; [exact Hrun|].
  exact (proj1 (EOF_is_final _ _ _ Hrun)).
Defined.

(** X20 on two blocks, of heights 10 and 11, the second with its
    checkpoint after its transaction; a third [BLOCK_START] stays in the
    channel. *)
Lemma blocks_read_in_order_witness :
  exists w',
    ReadBlocks 2
      (ready ["FIRE BLOCK_START 10"; "FIRE CHECKPOINT Cg=="; "FIRE TRX aGk=";
              "FIRE BLOCK_END 10";
              "FIRE BLOCK_START 11"; "FIRE TRX aA=="; "FIRE CHECKPOINT Cw==";
              "FIRE BLOCK_END 11";
              "FIRE BLOCK_START 12"])
    = Done [(Some (enveloppe_of block10), None);
            (Some (enveloppe_of block11), None)] w'
    /\ encoded (trace w')
       = [enveloppe_of block10; enveloppe_of block11]
    /\ blockRate (stats (reader w')) = 2
    /\ activeBlock (reader w') = None
    /\ lines w' = ["FIRE BLOCK_START 12"].
Proof.
  destruct (blocks_read_in_order
              [ {| start_height := "10";
                   body_lines := ["FIRE CHECKPOINT Cg=="; "FIRE TRX aGk="];
                   end_height := "10" |};
                {| start_height := "11";
                   body_lines := ["FIRE TRX aA=="; "FIRE CHECKPOINT Cw=="];
                   end_height := "11" |} ]
              [block10; block11]
              ["FIRE BLOCK_START 12"]
              (ready ["FIRE BLOCK_START 10"; "FIRE CHECKPOINT Cg=="; "FIRE TRX aGk=";
                      "FIRE BLOCK_END 10";
                      "FIRE BLOCK_START 11"; "FIRE TRX aA=="; "FIRE CHECKPOINT Cw==";
                      "FIRE BLOCK_END 11";
                      "FIRE BLOCK_START 12"])
              ltac:(reflexivity) ltac:(reflexivity) ltac:(reflexivity)
              ltac:(reflexivity))
    as (w' & H1 & H2 & H3 & _ & H4 & H5).
  exists w'. split; [exact H1|]. split; [exact H2|]. split; [exact H3|].
  split; [exact H4|exact H5].
Defined.

End Samples.
